(** * BSB Interlinear: text classifier, alignment engine and concordance search

    A shallow embedding of the pure core of the BSB Interlinear reader
    ([src/App.tsx] and [src/helpers/bsbDataApi.ts], together with the older
    data module that scans the verse index), and the properties its
    specification states about it.

    Conventions of the embedding:
    - a JavaScript string is the list of its UTF-16 code units ([list N]);
    - [string | null] is [option (list N)], and the truthiness test
      [strongs && ...] is [truthy];
    - a JavaScript number obtained from [parseInt] or from a table of book
      numbers is a [number]: an integer or [NaN]; the integers involved are
      exact as long as they stay below 2^53;
    - an object or [Map] used as a dictionary is a [gmap], the insertion
      ordered index cache that is only iterated is a list;
    - the module-level caches and the [fetch] calls are not modelled: every
      function takes the loaded data as an argument. *)

From Stdlib Require Import ZArith List Lia Ascii String Permutation Sorted.
From stdpp Require Import gmap list strings pretty sorting.

Local Open Scope N_scope.

(** ** JavaScript strings *)

(** Code units of an ASCII literal. *)
Definition str (s : string) : list N :=
  List.map N_of_ascii (list_ascii_of_string s).

(** [WhiteSpace] and [LineTerminator] of ECMAScript: the characters that
    [String.prototype.trim] strips and that [\s] matches. *)
Definition is_ws (c : N) : bool :=
  (c =? 9) || (c =? 10) || (c =? 11) || (c =? 12) || (c =? 13) || (c =? 32)
  || (c =? 160) || (c =? 5760) || ((8192 <=? c) && (c <=? 8202))
  || (c =? 8232) || (c =? 8233) || (c =? 8239) || (c =? 8287)
  || (c =? 12288) || (c =? 65279).

Fixpoint trimStart (s : list N) : list N :=
  match s with
  | c :: s' => if is_ws c then trimStart s' else s
  | [] => []
  end.

Definition trim (s : list N) : list N :=
  rev (trimStart (rev (trimStart s))).

(** Truthiness of a [string | null] value: [null] and the empty string are
    falsy. *)
Definition truthy (s : option (list N)) : bool :=
  match s with
  | Some (_ :: _) => true
  | _ => false
  end.

(** ** Regular expressions

    The three regular expressions of [App.tsx] are alternations of sequences
    of anchors and quantified character classes; [test] is the unanchored
    search of [RegExp.prototype.test] (no flags): some alternative matches
    from some start index. *)

Inductive quant := One | Plus | Star.

Inductive item :=
| Bol
| Eol
| Cls (q : quant) (p : N -> bool).

Fixpoint rep (p : N -> bool) (k : nat -> list N -> bool) (i : nat)
    (s : list N) : bool :=
  k i s ||
  match s with
  | c :: s' => p c && rep p k (S i) s'
  | [] => false
  end.

(** [match_here its i s]: the sequence [its] matches a prefix of [s], where
    [s] starts at index [i] of the input. *)
Fixpoint match_here (its : list item) (i : nat) (s : list N) : bool :=
  match its with
  | [] => true
  | Bol :: r => Nat.eqb i 0 && match_here r i s
  | Eol :: r => match s with [] => match_here r i s | _ :: _ => false end
  | Cls One p :: r =>
      match s with
      | c :: s' => p c && match_here r (S i) s'
      | [] => false
      end
  | Cls Star p :: r => rep p (match_here r) i s
  | Cls Plus p :: r =>
      match s with
      | c :: s' => p c && rep p (match_here r) (S i) s'
      | [] => false
      end
  end.

Definition test (re : list (list item)) (s : list N) : bool :=
  existsb
    (fun alt => existsb (fun i => match_here alt i (drop i s))
                        (seq 0 (S (length s))))
    re.

(** ** Text cleaning helpers ([App.tsx], lines 33-39) *)

(** The class of [PUNCTUATION_REGEX]: white space, full stop, comma,
    semicolon, colon, exclamation and question marks, apostrophe, quotation
    mark, parentheses, square brackets, hyphen, em dash (U+2014), en dash
    (U+2013), sof pasuq (U+05C3) and paseq (U+05C0). *)
Definition punct_class (c : N) : bool :=
  is_ws c || (c =? 46) || (c =? 44) || (c =? 59) || (c =? 58) || (c =? 33)
  || (c =? 63) || (c =? 39) || (c =? 34) || (c =? 40) || (c =? 41)
  || (c =? 91) || (c =? 93) || (c =? 45) || (c =? 8212) || (c =? 8211)
  || (c =? 1475) || (c =? 1472).

(** The class of the first alternative of [SKIP_MARKERS_REGEX]: hyphen,
    en dash, em dash. *)
Definition dash_class (c : N) : bool :=
  (c =? 45) || (c =? 8211) || (c =? 8212).

Definition dot_class (c : N) : bool := c =? 46.
Definition v_class (c : N) : bool := c =? 118.

(** The class of [cleanText]: square brackets and curly braces. *)
Definition bracket_class (c : N) : bool :=
  (c =? 91) || (c =? 93) || (c =? 123) || (c =? 125).

Definition PUNCTUATION_REGEX : list (list item) :=
  [ [Bol; Cls Plus punct_class; Eol] ].

Definition SKIP_MARKERS_REGEX : list (list item) :=
  [ [Bol; Cls Plus dash_class; Eol];
    [Bol; Cls Plus dot_class; Cls Star is_ws; Cls Plus dot_class;
     Cls Star is_ws; Cls Plus dot_class; Eol];
    [Bol; Cls One v_class; Cls One v_class; Cls One v_class; Eol] ].

Definition isPunctuation (text : list N) : bool :=
  test PUNCTUATION_REGEX text.

(** [strongs && SKIP_MARKERS_REGEX.test(text.trim())], read as a condition
    (every caller uses the value in a boolean position). *)
Definition shouldSkipWord (text : list N) (strongs : option (list N)) : bool :=
  truthy strongs && test SKIP_MARKERS_REGEX (trim text).

(** [s.replace(/[cls]/g, by)] for a pattern that is one character class:
    every code unit of the class is replaced, the others are copied. *)
Fixpoint replace_class_g (p : N -> bool) (by_ : list N) (s : list N)
    : list N :=
  match s with
  | [] => []
  | c :: s' => (if p c then by_ else [c]) ++ replace_class_g p by_ s'
  end.

Definition cleanText (text : list N) : list N :=
  replace_class_g bracket_class [] text.

(** ** Alignment engine ([renderVerse] in [App.tsx], lines 396-488) *)

(** [BSBWord = [string, string | null]]: text and Strong's number. *)
Definition BSBWord : Type := list N * option (list N).

(** [BSBVerse], with its fields [v], [w], [heb] and [grk]; an optional field
    that is absent is [None]. *)
Record BSBVerse := mkVerse {
  verse_v : Z;
  verse_w : list BSBWord;
  verse_heb : option (list BSBWord);
  verse_grk : option (list BSBWord)
}.

(** [WordPair]; [strongs] is copied from the word it comes from. *)
Record WordPair := mkPair {
  original : list N;
  english : list N;
  strongs : option (list N)
}.

(** [verse.heb || verse.grk || []]: an array, even an empty one, is truthy. *)
Definition originalWords (verse : BSBVerse) : list BSBWord :=
  match verse_heb verse with
  | Some l => l
  | None => match verse_grk verse with Some l => l | None => [] end
  end.

(** Lines 401-406: Strong's number -> original text, first occurrence wins. *)
Definition originalWordMap_step (m : gmap (list N) (list N)) (ow : BSBWord)
    : gmap (list N) (list N) :=
  let '(text, strongs) := ow in
  match strongs with
  | Some s =>
      if truthy strongs && negb (bool_decide (is_Some (m !! s)))
      then <[s := text]> m
      else m
  | None => m
  end.

Definition build_originalWordMap (ows : list BSBWord)
    : gmap (list N) (list N) :=
  foldl originalWordMap_step ∅ ows.

(** [x || ''] for a string or [undefined]. *)
Definition or_empty (x : option (list N)) : list N :=
  match x with
  | Some (c :: t) => c :: t
  | _ => []
  end.

(** The [for] loop of lines 467-474, from index [i] on: the first English
    entry with the same Strong's number whose index is not in
    [usedEnglishIndices]; yields the index and the cleaned text. *)
Fixpoint find_english (ws : list BSBWord) (i : nat)
    (strongs : option (list N)) (usedEnglishIndices : gset nat)
    : option (nat * list N) :=
  match ws with
  | [] => None
  | (engText, engStrongs) :: rest =>
      if bool_decide (engStrongs = strongs)
         && negb (bool_decide (i ∈ usedEnglishIndices))
      then Some (i, cleanText engText)
      else find_english rest (S i) strongs usedEnglishIndices
  end.

(** The callback of [.map] at lines 465-476, with the set it mutates passed
    explicitly. *)
Definition original_order_step (w : list BSBWord) (used : gset nat)
    (ow : BSBWord) : gset nat * WordPair :=
  let '(origText, strongs) := ow in
  match find_english w 0 strongs used with
  | Some (i, englishText) =>
      (used ∪ {[ i ]}, mkPair origText englishText strongs)
  | None => (used, mkPair origText [] strongs)
  end.

Fixpoint map_state {S A B : Type} (f : S -> A -> S * B) (st : S)
    (l : list A) : S * list B :=
  match l with
  | [] => (st, [])
  | x :: l' =>
      let '(st1, y) := f st x in
      let '(st2, ys) := map_state f st1 l' in
      (st2, y :: ys)
  end.

Definition original_filter (ow : BSBWord) : bool :=
  let '(text, strongs) := ow in truthy strongs && negb (isPunctuation text).

Definition english_filter (ew : BSBWord) : bool :=
  let '(text, strongs) := ew in
  truthy strongs && negb (isPunctuation text)
  && negb (shouldSkipWord text strongs).

Definition original_order_pairs (w ows : list BSBWord) : list WordPair :=
  snd (map_state (original_order_step w) ∅ (List.filter original_filter ows)).

Definition english_order_pairs (w : list BSBWord)
    (originalWordMap : gmap (list N) (list N)) : list WordPair :=
  List.map
    (fun '(text, strongs) =>
       mkPair (or_empty (strongs ≫= (originalWordMap !!.)))
              (cleanText text) strongs)
    (List.filter english_filter w).

(** [wordPairs] as computed by [renderVerse] in the two interlinear display
    modes. *)
Definition wordPairs (useHebrewWordOrder : bool) (verse : BSBVerse)
    : list WordPair :=
  let ows := originalWords verse in
  let originalWordMap := build_originalWordMap ows in
  if useHebrewWordOrder && Nat.ltb 0 (length ows)
  then original_order_pairs (verse_w verse) ows
  else english_order_pairs (verse_w verse) originalWordMap.

(** ** Numbers *)

(** A JavaScript number that is an integer or [NaN]. *)
Inductive number :=
| NaN
| Int (z : Z).

#[global] Instance number_eq_dec : EqDecision number.
Proof. solve_decision. Defined.

Definition num_sub (a b : number) : number :=
  match a, b with
  | Int x, Int y => Int (x - y)
  | _, _ => NaN
  end.

(** [a || b] on numbers: [0] and [NaN] are falsy. *)
Definition num_or (a b : number) : number :=
  match a with
  | Int z => if (z =? 0)%Z then b else a
  | NaN => b
  end.

(** [x || d] where [x] is a number or [undefined]. *)
Definition lookup_or (x : option number) (d : number) : number :=
  match x with
  | Some a => num_or a d
  | None => d
  end.

(** ** Values read from a plain object

    [BOOK_NUMBERS] is a plain object (the result of [Object.fromEntries]), and
    [o[k]] on a plain object finds, besides the properties of the object
    itself, the members of that name that every object inherits from
    [Object.prototype]. *)
Definition Object_prototype_members : list (list N) :=
  [ str "constructor"; str "__defineGetter__"; str "__defineSetter__";
    str "hasOwnProperty"; str "__lookupGetter__"; str "__lookupSetter__";
    str "isPrototypeOf"; str "propertyIsEnumerable"; str "toString";
    str "valueOf"; str "__proto__"; str "toLocaleString" ].

(** What such a look-up gives: a number of the table, or the inherited
    member of the given name (a function, or for [__proto__] the prototype
    object). *)
Inductive value :=
| Num (n : number)
| Inherited (name : list N).

Coercion Num : number >-> value.

#[global] Instance value_eq_dec : EqDecision value.
Proof. solve_decision. Defined.

(** [o[k]] for a table [o] of numbers. *)
Definition object_get (o : gmap (list N) number) (k : list N)
    : option value :=
  match o !! k with
  | Some n => Some (Num n)
  | None =>
      if bool_decide (k ∈ Object_prototype_members) then Some (Inherited k)
      else None
  end.

(** The number a value stands for in a subtraction or a comparison: an
    inherited member has none. *)
Definition to_number (x : value) : number :=
  match x with
  | Num n => n
  | Inherited _ => NaN
  end.

(** [x || d] where [x] is such a value or [undefined]: functions and objects
    are truthy; [0] and [NaN] are falsy. *)
Definition value_or (x : option value) (d : value) : value :=
  match x with
  | Some (Num (Int z)) => if (z =? 0)%Z then d else Num (Int z)
  | Some (Num NaN) => d
  | Some (Inherited name) => Inherited name
  | None => d
  end.

Definition digit_of (radix : Z) (c : N) : option Z :=
  let d :=
    if (48 <=? c) && (c <=? 57) then Some (Z.of_N c - 48)%Z
    else if (97 <=? c) && (c <=? 122) then Some (Z.of_N c - 87)%Z
    else if (65 <=? c) && (c <=? 90) then Some (Z.of_N c - 55)%Z
    else None in
  match d with
  | Some d => if (d <? radix)%Z then Some d else None
  | None => None
  end.

Fixpoint parse_digits (radix : Z) (acc : option Z) (s : list N) : option Z :=
  match s with
  | c :: s' =>
      match digit_of radix c with
      | Some d => parse_digits radix (Some (default 0 acc * radix + d)%Z) s'
      | None => acc
      end
  | [] => acc
  end.

(** [parseInt(string)] with no radix argument; [None] is [undefined], whose
    string form has no digit. The integer is the exact one the digits
    denote; JavaScript rounds it to a double, so the two agree for values of
    magnitude below 2^53 (the predicate [safe_int] below), and the
    properties that depend on the value of a numeral carry that bound. *)
Definition parseInt (string : option (list N)) : number :=
  let inputString :=
    match string with Some s => s | None => str "undefined" end in
  let S0 := trimStart inputString in
  let sign := match S0 with 45 :: _ => (-1)%Z | _ => 1%Z end in
  let S1 := match S0 with 43 :: r | 45 :: r => r | _ => S0 end in
  let '(R, S2) :=
    match S1 with
    | 48 :: 120 :: r | 48 :: 88 :: r => (16%Z, r)
    | _ => (10%Z, S1)
    end in
  match parse_digits R None S2 with
  | Some z => Int (sign * z)
  | None => NaN
  end.

(** [s.split(sep)] for a one-character separator. *)
Fixpoint split_on (sep : N) (s : list N) : list (list N) :=
  match s with
  | [] => [[]]
  | c :: s' =>
      if c =? sep then [] :: split_on sep s'
      else match split_on sep s' with
           | h :: t => (c :: h) :: t
           | [] => [[c]]
           end
  end.

(** [Array.prototype.sort(comparefn)] as a stable insertion sort: [x] goes
    before [y] when [comparefn(x, y) <= 0], a [NaN] result counting as [+0].
    For a consistent comparator ECMAScript fixes the result of the (stable)
    sort, whatever algorithm the engine runs. *)
Definition cmp_le {A : Type} (comparefn : A -> A -> number) (x y : A) : bool :=
  match comparefn x y with
  | Int z => (z <=? 0)%Z
  | NaN => true
  end.

Fixpoint sort_insert {A : Type} (comparefn : A -> A -> number) (x : A)
    (l : list A) : list A :=
  match l with
  | [] => [x]
  | y :: l' =>
      if cmp_le comparefn x y then x :: l
      else y :: sort_insert comparefn x l'
  end.

Definition sort {A : Type} (comparefn : A -> A -> number) (l : list A)
    : list A :=
  foldr (sort_insert comparefn) [] l.

(** ** Book tables ([bsbDataApi.ts], lines 10-166) *)

Definition BOOK_CODES : list (N * list N) :=
  [
    (1, str "GEN"); (2, str "EXO"); (3, str "LEV"); (4, str "NUM");
    (5, str "DEU"); (6, str "JOS"); (7, str "JDG"); (8, str "RUT");
    (9, str "1SA"); (10, str "2SA"); (11, str "1KI"); (12, str "2KI");
    (13, str "1CH"); (14, str "2CH"); (15, str "EZR"); (16, str "NEH");
    (17, str "EST"); (18, str "JOB"); (19, str "PSA"); (20, str "PRO");
    (21, str "ECC"); (22, str "SNG"); (23, str "ISA"); (24, str "JER");
    (25, str "LAM"); (26, str "EZK"); (27, str "DAN"); (28, str "HOS");
    (29, str "JOL"); (30, str "AMO"); (31, str "OBA"); (32, str "JON");
    (33, str "MIC"); (34, str "NAM"); (35, str "HAB"); (36, str "ZEP");
    (37, str "HAG"); (38, str "ZEC"); (39, str "MAL"); (40, str "MAT");
    (41, str "MRK"); (42, str "LUK"); (43, str "JHN"); (44, str "ACT");
    (45, str "ROM"); (46, str "1CO"); (47, str "2CO"); (48, str "GAL");
    (49, str "EPH"); (50, str "PHP"); (51, str "COL"); (52, str "1TH");
    (53, str "2TH"); (54, str "1TI"); (55, str "2TI"); (56, str "TIT");
    (57, str "PHM"); (58, str "HEB"); (59, str "JAS"); (60, str "1PE");
    (61, str "2PE"); (62, str "1JN"); (63, str "2JN"); (64, str "3JN");
    (65, str "JUD"); (66, str "REV")
  ].

(** [Object.entries] of a record with integer keys: the keys as decimal
    strings. *)
Definition entries (o : list (N * list N)) : list (list N * list N) :=
  List.map (fun '(num, code) => (str (pretty num), code)) o.

(** [Object.fromEntries]: a later entry overwrites an earlier one. *)
Definition fromEntries {V : Type} (l : list (list N * V)) : gmap (list N) V :=
  foldl (fun m '(k, x) => <[k := x]> m) ∅ l.

Definition BOOK_NUMBERS : gmap (list N) number :=
  fromEntries
    (List.map (fun '(num, code) => (code, parseInt (Some num)))
              (entries BOOK_CODES)).

Definition BOOK_ALIASES : gmap (list N) (list N) :=
  fromEntries [
    (str "GEN", str "GEN"); (str "EXO", str "EXO"); (str "LEV", str "LEV");
    (str "NUM", str "NUM"); (str "DEU", str "DEU"); (str "JOS", str "JOS");
    (str "JDG", str "JDG"); (str "RUT", str "RUT"); (str "1SA", str "1SA");
    (str "2SA", str "2SA"); (str "1KI", str "1KI"); (str "2KI", str "2KI");
    (str "1CH", str "1CH"); (str "2CH", str "2CH"); (str "EZR", str "EZR");
    (str "NEH", str "NEH"); (str "EST", str "EST"); (str "JOB", str "JOB");
    (str "PSA", str "PSA"); (str "PRO", str "PRO"); (str "ECC", str "ECC");
    (str "SNG", str "SNG"); (str "SOL", str "SNG"); (str "ISA", str "ISA");
    (str "JER", str "JER"); (str "LAM", str "LAM"); (str "EZK", str "EZK");
    (str "EZE", str "EZK"); (str "DAN", str "DAN"); (str "HOS", str "HOS");
    (str "JOL", str "JOL"); (str "JOE", str "JOL"); (str "AMO", str "AMO");
    (str "OBA", str "OBA"); (str "OBD", str "OBA"); (str "JON", str "JON");
    (str "MIC", str "MIC"); (str "NAM", str "NAM"); (str "NAH", str "NAM");
    (str "HAB", str "HAB"); (str "ZEP", str "ZEP"); (str "HAG", str "HAG");
    (str "ZEC", str "ZEC"); (str "MAL", str "MAL"); (str "MAT", str "MAT");
    (str "MRK", str "MRK"); (str "MAR", str "MRK"); (str "LUK", str "LUK");
    (str "JHN", str "JHN"); (str "JOH", str "JHN"); (str "ACT", str "ACT");
    (str "ROM", str "ROM"); (str "1CO", str "1CO"); (str "2CO", str "2CO");
    (str "GAL", str "GAL"); (str "EPH", str "EPH"); (str "PHP", str "PHP");
    (str "PHI", str "PHP"); (str "COL", str "COL"); (str "1TH", str "1TH");
    (str "2TH", str "2TH"); (str "1TI", str "1TI"); (str "2TI", str "2TI");
    (str "TIT", str "TIT"); (str "PHM", str "PHM"); (str "HEB", str "HEB");
    (str "JAS", str "JAS"); (str "JAM", str "JAS"); (str "1PE", str "1PE");
    (str "2PE", str "2PE"); (str "1JN", str "1JN"); (str "1JO", str "1JN");
    (str "2JN", str "2JN"); (str "2JO", str "2JN"); (str "3JN", str "3JN");
    (str "3JO", str "3JN"); (str "JUD", str "JUD"); (str "JDE", str "JUD");
    (str "REV", str "REV")
  ].

Arguments BOOK_NUMBERS : simpl never.
Arguments BOOK_ALIASES : simpl never.
Arguments parseInt : simpl never.

Definition num_geb (a : number) (z : Z) : bool :=
  match a with Int x => (z <=? x)%Z | NaN => false end.

Definition num_leb (a : number) (z : Z) : bool :=
  match a with Int x => (x <=? z)%Z | NaN => false end.

(** [s.startsWith(c)] for a one-character string [c]. *)
Definition startsWith (s : list N) (c : N) : bool :=
  match s with
  | c0 :: _ => c0 =? c
  | [] => false
  end.

(** ** Data access, current module ([bsbDataApi.ts])

    [String.prototype.toUpperCase] is a parameter of the development. *)
Module DataApi.

Record ConcordanceResult := mkResult {
  id : list N;
  bookCode : option (list N);
  bookNumber : value;
  chapter : number;
  verse : number
}.

(** The [.map] callback of lines 475-484; the three names destructured from
    [ref.split('.')] are [undefined] when the array is too short.
    [BOOK_NUMBERS[bookCode] || 0] reads the plain object. *)
Definition parse_ref (ref : list N) : ConcordanceResult :=
  let parts := split_on 46 ref in
  let bookCode := parts !! 0%nat in
  let chapter := parts !! 1%nat in
  let verse := parts !! 2%nat in
  mkResult ref bookCode
           (value_or (bookCode ≫= object_get BOOK_NUMBERS) (Int 0))
           (parseInt chapter) (parseInt verse).

(** The comparator of lines 487-489. *)
Definition compare_results (a b : ConcordanceResult) : number :=
  num_or (num_or (num_sub (to_number (bookNumber a))
                          (to_number (bookNumber b)))
                 (num_sub (chapter a) (chapter b)))
         (num_sub (verse a) (verse b)).

Section WithUpperCase.
Variable toUpperCase : list N -> list N.

Definition normalizeBookCode (bookCode : list N) : option (list N) :=
  match bookCode with
  | [] => None
  | _ :: _ =>
      let upper := toUpperCase bookCode in
      match BOOK_ALIASES !! upper with
      | Some (c :: t) => Some (c :: t)
      | _ => None
      end
  end.

Definition getBookNumber (bookCode : list N) : number :=
  match normalizeBookCode bookCode with
  | Some (c :: t) => lookup_or (BOOK_NUMBERS !! (c :: t)) (Int 0)
  | _ => Int 0
  end.

Definition isOldTestament (book : list N) : bool :=
  let num := getBookNumber book in
  num_geb num 1 && num_leb num 39.

(** [concordance] is what [loadConcordance] resolved to: [None] when the
    resource could not be loaded. *)
Definition searchConcordance
    (concordance : option (gmap (list N) (list (list N))))
    (strongsNumber : list N) : list ConcordanceResult :=
  match concordance with
  | None => []
  | Some concordance =>
      let normalized := toUpperCase strongsNumber in
      match concordance !! normalized with
      | None => []
      | Some [] => []
      | Some verseRefs =>
          sort compare_results (List.map parse_ref verseRefs)
      end
  end.
End WithUpperCase.

End DataApi.

(** ** Data access, older module (scan of the verse index)

    The older data module has the same [BOOK_CODES] and [BOOK_NUMBERS]
    tables; its [searchConcordance] walks the whole index cache. *)
Module IndexScan.

Record BSBIndexEntry := mkEntry {
  id : list N;
  b : list N;
  c : number;
  v : number;
  t : list N;
  s : option (list (list N))
}.

Record ConcordanceResult := mkResult {
  bookCode : list N;
  bookNumber : value;
  chapter : number;
  verse : number;
  text : list N
}.

Definition compare_results (a b : ConcordanceResult) : number :=
  num_or (num_or (num_sub (to_number (bookNumber a))
                          (to_number (bookNumber b)))
                 (num_sub (chapter a) (chapter b)))
         (num_sub (verse a) (verse b)).

(** The body of the [forEach] callback, [results] being the array it pushes
    to. *)
Definition scan_step (normalized : list N) (isHebrew : bool)
    (results : list ConcordanceResult) (entry : BSBIndexEntry)
    : list ConcordanceResult :=
  let bookNum := value_or (object_get BOOK_NUMBERS (b entry)) (Int 0) in
  let isOT :=
    num_geb (to_number bookNum) 1 && num_leb (to_number bookNum) 39 in
  if negb (eqb isHebrew isOT) then results
  else if match s entry with
          | Some l => bool_decide (normalized ∈ l)
          | None => false
          end
       then results ++ [mkResult (b entry) bookNum (c entry) (v entry)
                                 (t entry)]
       else results.

Section WithUpperCase.
Variable toUpperCase : list N -> list N.

(** [indexCache] is the insertion-ordered map filled by [loadIndex]
    (empty when loading failed). *)
Definition searchConcordance (indexCache : list (list N * BSBIndexEntry))
    (strongsNumber : list N) : list ConcordanceResult :=
  let normalized := toUpperCase strongsNumber in
  let isHebrew := startsWith normalized 72 in
  let results :=
    foldl (scan_step normalized isHebrew) [] (List.map snd indexCache) in
  sort compare_results results.
End WithUpperCase.

Definition getBookNumber (bookCode : list N) : value :=
  value_or (object_get BOOK_NUMBERS bookCode) (Int 1).

Definition isOldTestament (bookNumber : number) : bool :=
  num_geb bookNumber 1 && num_leb bookNumber 39.

End IndexScan.

(** [toUpperCase] on the ASCII range, used to run the functions on concrete
    ASCII inputs. *)
Definition ascii_upper (s : list N) : list N :=
  List.map (fun c => if (97 <=? c) && (c <=? 122) then c - 32 else c) s.

(** ** Plain text mode of [renderVerse] ([App.tsx], lines 408-430) *)

(** What one word of the verse becomes: nothing ([null]), its text as it is,
    or a word that can be pressed, with the Strong's number it opens. *)
Inductive Span :=
| PlainSpan (text : list N)
| ClickableSpan (text : list N) (strongs : option (list N)).

Definition text_mode_word (wd : BSBWord) : option Span :=
  let '(text, strongs) := wd in
  if shouldSkipWord text strongs then None
  else if negb (truthy strongs) || isPunctuation text
       then Some (PlainSpan text)
       else Some (ClickableSpan (cleanText text) strongs).

Definition text_mode (verse : BSBVerse) : list (option Span) :=
  List.map text_mode_word (verse_w verse).

(** ** Book codes by number ([bsbDataApi.ts], lines 260-265) *)

(** [o[k]] for an object literal with integer keys, given by its entries. *)
Fixpoint assoc_get {V : Type} (k : N) (o : list (N * V)) : option V :=
  match o with
  | [] => None
  | (k', x) :: rest => if k' =? k then Some x else assoc_get k rest
  end.

(** [o[n]] for a number [n]: only a non-negative integer names an entry. *)
Definition index_by_number {V : Type} (o : list (N * V)) (n : number)
    : option V :=
  match n with
  | Int z => if (0 <=? z)%Z then assoc_get (Z.to_N z) o else None
  | NaN => None
  end.

(** [BOOK_CODES[bookNumber] || null] *)
Definition getBookCode (bookNumber : number) : option (list N) :=
  match index_by_number BOOK_CODES bookNumber with
  | Some (c :: t) => Some (c :: t)
  | _ => None
  end.

(** ** Chapter navigation ([App.tsx], lines 217 and 279-298)

    The table [books] (asset [books-desc], with the fields [id], [name] and
    [chapters] of each book) is a parameter. The state is the pair of
    [bookNumber] and [chapter], both integers. *)

Record BookDesc := mkBook {
  book_id : Z;
  book_name : list N;
  book_chapters : Z
}.

Record Position := mkPos {
  bookNumber : Z;
  chapter : Z
}.

(** [books.find(b => b.id === n)] *)
Definition find_book (books : list BookDesc) (n : Z) : option BookDesc :=
  List.find (λ b, (book_id b =? n)%Z) books.

(** [books.find(b => b.id === bookNumber) || books[0]] *)
Definition currentBook (books : list BookDesc) (p : Position)
    : option BookDesc :=
  match find_book books (bookNumber p) with
  | Some b => Some b
  | None => head books
  end.

Definition goToPrevChapter (books : list BookDesc) (p : Position)
    : Position :=
  if (1 <? chapter p)%Z then mkPos (bookNumber p) (chapter p - 1)
  else if (1 <? bookNumber p)%Z then
    match find_book books (bookNumber p - 1) with
    | Some prevBook => mkPos (bookNumber p - 1) (book_chapters prevBook)
    | None => p
    end
  else p.

(** [None] when there is no current book at all (empty table), where
    reading [currentBook.chapters] throws. *)
Definition goToNextChapter (books : list BookDesc) (p : Position)
    : option Position :=
  match currentBook books p with
  | None => None
  | Some cb =>
      Some (if (chapter p <? book_chapters cb)%Z
            then mkPos (bookNumber p) (chapter p + 1)
            else if (bookNumber p <? 66)%Z
                 then mkPos (bookNumber p + 1) 1
                 else p)
  end.

(** ** Chapter content ([App.tsx], lines 627-639) *)

Record BSBHeading := mkHeading {
  heading_id : list N;
  heading_b : list N;
  heading_c : number;
  heading_before_v : number;
  heading_level : list N;
  heading_text : list N;
  heading_refs : list (list N)
}.

(** [a === b] on numbers: [NaN] equals nothing. *)
Definition num_eqb (a b : number) : bool :=
  match a, b with
  | Int x, Int y => (x =? y)%Z
  | _, _ => false
  end.

Inductive Element :=
| HeadingElement (h : BSBHeading)
| VerseElement (verse : BSBVerse).

(** The body of the outer [for] loop: the headings placed before the verse
    are pushed, then the verse. *)
Definition renderContent_step (bsbHeadings : list BSBHeading)
    (elements : list Element) (verse : BSBVerse) : list Element :=
  foldl (λ els h, els ++ [HeadingElement h])
        elements
        (List.filter (λ h, num_eqb (heading_before_v h) (Int (verse_v verse)))
                     bsbHeadings)
  ++ [VerseElement verse].

(** [renderContent]; [bsbData] is the list of verses of the loaded chapter,
    [None] while no chapter is loaded. *)
Definition renderContent (bsbData : option (list BSBVerse))
    (bsbHeadings : list BSBHeading) : option (list Element) :=
  match bsbData with
  | None => None
  | Some verses => Some (foldl (renderContent_step bsbHeadings) [] verses)
  end.

(** ** Strong's lexicon ([strongsApi.ts])

    The type of lexicon entries is a parameter; a lexicon file is read as
    the list of its entries, and the object it becomes is the map of these
    entries. *)
Module Lexicon.

(** What [fetch] and [response.json()] give at one moment: [None] when the
    request is rejected, and a body that is [None] when it is not JSON. *)
Record Response (B : Type) := mkResponse {
  ok : bool;
  body : option B
}.
Arguments mkResponse {B}.
Arguments ok {B}.
Arguments body {B}.

Section WithEntry.
Variable Entry : Type.
Variable toUpperCase : list N -> list N.

Record Cache := mkCache {
  hebrew : option (gmap (list N) Entry);
  greek : option (gmap (list N) Entry)
}.

Record Env := mkEnv {
  fetch_hebrew : option (Response (list (list N * Entry)));
  fetch_greek : option (Response (list (list N * Entry)))
}.

(** The common shape of [loadHebrewLexicon] and [loadGreekLexicon]: the
    cached object if there is one, else the fetched one, which is cached;
    an empty object, not cached, when anything fails. The result is the new
    cache slot and the lexicon. *)
Definition load_lexicon (slot : option (gmap (list N) Entry))
    (fetched : option (Response (list (list N * Entry))))
    : option (gmap (list N) Entry) * gmap (list N) Entry :=
  match slot with
  | Some lexicon => (slot, lexicon)
  | None =>
      match fetched with
      | Some (mkResponse true (Some data)) =>
          (Some (fromEntries data), fromEntries data)
      | _ => (None, ∅)
      end
  end.

Definition loadHebrewLexicon (env : Env) (st : Cache)
    : Cache * gmap (list N) Entry :=
  let '(slot, lexicon) := load_lexicon (hebrew st) (fetch_hebrew env) in
  (mkCache slot (greek st), lexicon).

Definition loadGreekLexicon (env : Env) (st : Cache)
    : Cache * gmap (list N) Entry :=
  let '(slot, lexicon) := load_lexicon (greek st) (fetch_greek env) in
  (mkCache (hebrew st) slot, lexicon).

Definition getLexiconEntry (env : Env) (st : Cache) (strongsNumber : list N)
    : Cache * option Entry :=
  match strongsNumber with
  | [] => (st, None)
  | _ :: _ =>
      let normalized := toUpperCase strongsNumber in
      let '(st', lexicon) :=
        if startsWith normalized 72 then loadHebrewLexicon env st
        else loadGreekLexicon env st in
      (st', lexicon !! normalized)
  end.

(** The body of the [for] loop of [getLexiconEntries]. *)
Definition getLexiconEntries_step (hebrew greek : gmap (list N) Entry)
    (results : gmap (list N) Entry) (num : list N) : gmap (list N) Entry :=
  match num with
  | [] => results
  | _ :: _ =>
      let normalized := toUpperCase num in
      let entry :=
        if startsWith normalized 72 then hebrew !! normalized
        else greek !! normalized in
      match entry with
      | Some e => <[normalized := e]> results
      | None => results
      end
  end.

Definition getLexiconEntries (env : Env) (st : Cache)
    (strongsNumbers : list (list N)) : Cache * gmap (list N) Entry :=
  let '(st1, hebrew) := loadHebrewLexicon env st in
  let '(st2, greek) := loadGreekLexicon env st1 in
  (st2, foldl (getLexiconEntries_step hebrew greek) ∅ strongsNumbers).

(** [clearLexiconCache] *)
Definition clearLexiconCache (st : Cache) : Cache := mkCache None None.

End WithEntry.

Arguments mkCache {Entry}.
Arguments hebrew {Entry}.
Arguments greek {Entry}.
Arguments mkEnv {Entry}.
Arguments fetch_hebrew {Entry}.
Arguments fetch_greek {Entry}.
Arguments getLexiconEntry {Entry}.
Arguments getLexiconEntries {Entry}.
Arguments loadHebrewLexicon {Entry}.
Arguments loadGreekLexicon {Entry}.
Arguments load_lexicon {Entry}.
Arguments getLexiconEntries_step {Entry}.

End Lexicon.

(** ** Loading and caching ([bsbDataApi.ts], lines 235-241 and 276-458)

    The four module-level caches are the fields of [State]; every loader
    takes the state and returns the new one with its answer. What the
    network gives at the time of a call is the [fetch] argument: [None]
    when the request is rejected, else a response with its [ok] flag and
    its body as [response.json()] or [response.text()] would give it
    ([None] when that fails). The display files and the concordance file
    are read in their documented shape, an object being the list of its
    entries in property order. [JSON.parse] of a heading line and of an
    index line are parameters, as is the type of index entries. One call
    runs to its end before the next one starts; the three loads that
    [loadEnrichedBSBChapter] awaits together work on three different
    caches, so their order does not matter. *)
Module Store.

(** A verse as loaded: its number is what [parseInt] makes of the key. *)
Record Verse := mkVerse {
  v : number;
  w : list BSBWord;
  heb : option (list BSBWord);
  grk : option (list BSBWord)
}.

Record BSBChapter := mkChapter {
  book : list N;
  chapter : number;
  verses : list Verse
}.

(** A display file: [{ eng: {...}, heb?: {...}, grk?: {...} }], each object
    from verse number (a string) to words. *)
Record DisplayData := mkData {
  eng : option (list (list N * list BSBWord));
  data_heb : option (list (list N * list BSBWord));
  data_grk : option (list (list N * list BSBWord))
}.

Record Response := mkResponse {
  ok : bool;
  status : Z;
  text : option (list N);
  json_display : option DisplayData;
  json_concordance : option (list (list N * list (list N)))
}.

(** [o[k]] for an object given by its entries and a string key. *)
Fixpoint prop_get {V : Type} (k : list N) (o : list (list N * V))
    : option V :=
  match o with
  | [] => None
  | (k', x) :: rest =>
      if bool_decide (k' = k) then Some x else prop_get k rest
  end.

(** A number inside a template string. *)
Definition number_to_string (n : number) : list N :=
  match n with
  | Int z => str (pretty z)
  | NaN => str "NaN"
  end.

Definition BSB_DATA_BASE : list N := str "/bsb-data".

Definition cache_key (normalized : list N) (chapterNum : number) : list N :=
  normalized ++ str "." ++ number_to_string chapterNum.

Definition display_url (normalized : list N) (chapterNum : number)
    : list N :=
  BSB_DATA_BASE ++ str "/display/" ++ normalized ++ str "/" ++ normalized
  ++ number_to_string chapterNum ++ str ".json".

Definition index_url (normalized : list N) (chapterNum : number) : list N :=
  BSB_DATA_BASE ++ str "/index-cc-by/" ++ normalized ++ str "/" ++ normalized
  ++ number_to_string chapterNum ++ str ".jsonl".

Definition headings_url : list N := BSB_DATA_BASE ++ str "/headings.jsonl".

Definition concordance_url : list N :=
  BSB_DATA_BASE ++ str "/concordance/strongs-to-verses.json".

(** The verses of a display file (lines 305-323): the keys of [data.eng]
    sorted by their numeric value, each with its English words and, when
    the file has them, the words of the original language of the
    testament. A key of the object always has a value. *)
Definition build_verse (isOT : bool) (data : DisplayData)
    (engObj : list (list N * list BSBWord)) (verseNum : list N) : Verse :=
  let original :=
    (if isOT then data_heb data else data_grk data)
      ≫= prop_get verseNum in
  mkVerse (parseInt (Some verseNum))
          (default [] (prop_get verseNum engObj))
          (if isOT then original else None)
          (if isOT then None else original).

Definition build_verses (isOT : bool) (data : DisplayData)
    (engObj : list (list N * list BSBWord)) : list Verse :=
  List.map (build_verse isOT data engObj)
    (sort (λ a b, num_sub (parseInt (Some a)) (parseInt (Some b)))
          (List.map fst engObj)).

(** [entries.set(index + 1, entry)] for each line, from index [i] on. *)
Fixpoint index_entries {Entry : Type} (i : nat) (es : list Entry)
    (entries : gmap nat Entry) : gmap nat Entry :=
  match es with
  | [] => entries
  | e :: rest => index_entries (S i) rest (<[S i := e]> entries)
  end.

(** [lines.map(line => JSON.parse(line))], which fails as a whole when one
    line does not parse. *)
Fixpoint parse_lines {A : Type} (parse : list N -> option A)
    (lines : list (list N)) : option (list A) :=
  match lines with
  | [] => Some []
  | line :: rest =>
      match parse line with
      | None => None
      | Some x =>
          match parse_lines parse rest with
          | None => None
          | Some xs => Some (x :: xs)
          end
      end
  end.

Section WithParsers.
Variable Entry : Type.
Variable toUpperCase : list N -> list N.
Variable parse_heading : list N -> option BSBHeading.
Variable parse_entry : list N -> option Entry.

Record State := mkState {
  chapterCache : gmap (list N) BSBChapter;
  chapterIndexCache : gmap (list N) (gmap nat Entry);
  headingsCache : option (list BSBHeading);
  concordanceCache : option (gmap (list N) (list (list N)))
}.

Definition Fetch : Type := list N -> option Response.

(** [loadBSBChapter], once the book code is normalized. *)
Definition loadBSBChapter_normalized (fetch : Fetch) (st : State)
    (normalized : list N) (chapterNum : number)
    : State * option BSBChapter :=
  let cacheKey := cache_key normalized chapterNum in
  match chapterCache st !! cacheKey with
  | Some cached => (st, Some cached)
  | None =>
      match fetch (display_url normalized chapterNum) with
      | None => (st, None)
      | Some response =>
          if negb (ok response) then (st, None)
          else
            match json_display response with
            | None => (st, None)
            | Some data =>
                match eng data with
                | None => (st, None)
                | Some engObj =>
                    let isOT :=
                      DataApi.isOldTestament toUpperCase normalized in
                    let result :=
                      mkChapter normalized chapterNum
                                (build_verses isOT data engObj) in
                    (mkState (<[cacheKey := result]> (chapterCache st))
                             (chapterIndexCache st) (headingsCache st)
                             (concordanceCache st),
                     Some result)
                end
            end
      end
  end.

Definition loadBSBChapter (fetch : Fetch) (st : State) (bookCode : list N)
    (chapterNum : number) : State * option BSBChapter :=
  match DataApi.normalizeBookCode toUpperCase bookCode with
  | Some (c :: t) => loadBSBChapter_normalized fetch st (c :: t) chapterNum
  | _ => (st, None)
  end.

Definition loadHeadings (fetch : Fetch) (st : State)
    : State * list BSBHeading :=
  match headingsCache st with
  | Some cached => (st, cached)
  | None =>
      match fetch headings_url with
      | None => (st, [])
      | Some response =>
          if negb (ok response) then (st, [])
          else
            match text response with
            | None => (st, [])
            | Some t =>
                match parse_lines parse_heading (split_on 10 (trim t)) with
                | None => (st, [])
                | Some hs =>
                    (mkState (chapterCache st) (chapterIndexCache st)
                             (Some hs) (concordanceCache st),
                     hs)
                end
            end
      end
  end.

Definition loadChapterIndex_normalized (fetch : Fetch) (st : State)
    (normalized : list N) (chapterNum : number)
    : State * option (gmap nat Entry) :=
  let cacheKey := cache_key normalized chapterNum in
  match chapterIndexCache st !! cacheKey with
  | Some cached => (st, Some cached)
  | None =>
      match fetch (index_url normalized chapterNum) with
      | None => (st, None)
      | Some response =>
          if negb (ok response) then (st, None)
          else
            match text response with
            | None => (st, None)
            | Some t =>
                match parse_lines parse_entry (split_on 10 (trim t)) with
                | None => (st, None)
                | Some es =>
                    let entries := index_entries 0 es ∅ in
                    (mkState (chapterCache st)
                             (<[cacheKey := entries]> (chapterIndexCache st))
                             (headingsCache st) (concordanceCache st),
                     Some entries)
                end
            end
      end
  end.

Definition loadChapterIndex (fetch : Fetch) (st : State) (bookCode : list N)
    (chapterNum : number) : State * option (gmap nat Entry) :=
  match DataApi.normalizeBookCode toUpperCase bookCode with
  | Some (c :: t) => loadChapterIndex_normalized fetch st (c :: t) chapterNum
  | _ => (st, None)
  end.

Definition loadConcordance (fetch : Fetch) (st : State)
    : State * option (gmap (list N) (list (list N))) :=
  match concordanceCache st with
  | Some cached => (st, Some cached)
  | None =>
      match fetch concordance_url with
      | None => (st, None)
      | Some response =>
          if negb (ok response) then (st, None)
          else
            match json_concordance response with
            | None => (st, None)
            | Some data =>
                (mkState (chapterCache st) (chapterIndexCache st)
                         (headingsCache st) (Some (fromEntries data)),
                 Some (fromEntries data))
            end
      end
  end.

Record Enriched := mkEnriched {
  enriched_chapter : BSBChapter;
  enriched_headings : list BSBHeading;
  indexEntries : gmap nat Entry
}.

Definition loadEnrichedBSBChapter (fetch : Fetch) (st : State)
    (bookNumber chapterNumber : number) : State * option Enriched :=
  match getBookCode bookNumber with
  | None => (st, None)
  | Some bookCode =>
      let '(st1, chapterData) :=
        loadBSBChapter fetch st bookCode chapterNumber in
      let '(st2, allHeadings) := loadHeadings fetch st1 in
      let '(st3, indexData) :=
        loadChapterIndex fetch st2 bookCode chapterNumber in
      match chapterData with
      | None => (st3, None)
      | Some chapterData =>
          (st3,
           Some (mkEnriched chapterData
                   (List.filter
                      (λ h, bool_decide (heading_b h = bookCode)
                            && num_eqb (heading_c h) chapterNumber)
                      allHeadings)
                   (default ∅ indexData)))
      end
  end.

(** [searchConcordance] with the load it starts with. *)
Definition searchConcordance (fetch : Fetch) (st : State)
    (strongsNumber : list N) : State * list DataApi.ConcordanceResult :=
  let '(st', concordance) := loadConcordance fetch st in
  (st', DataApi.searchConcordance toUpperCase concordance strongsNumber).

Definition clearBSBCache (st : State) : State := mkState ∅ ∅ None None.

End WithParsers.

Arguments mkState {Entry}.
Arguments chapterCache {Entry}.
Arguments chapterIndexCache {Entry}.
Arguments headingsCache {Entry}.
Arguments concordanceCache {Entry}.
Arguments loadBSBChapter_normalized {Entry}.
Arguments loadBSBChapter {Entry}.
Arguments loadHeadings {Entry}.
Arguments loadChapterIndex_normalized {Entry}.
Arguments loadChapterIndex {Entry}.
Arguments loadConcordance {Entry}.
Arguments loadEnrichedBSBChapter {Entry}.
Arguments searchConcordance {Entry}.
Arguments clearBSBCache {Entry}.
Arguments mkEnriched {Entry}.
Arguments enriched_chapter {Entry}.
Arguments enriched_headings {Entry}.
Arguments indexEntries {Entry}.

End Store.

(** ** Parallel passage references ([App.tsx], lines 50-133) *)

Definition bookAbbrev : list (N * list N) :=
  [
    (1, str "Gen"); (2, str "Exo"); (3, str "Lev"); (4, str "Num");
    (5, str "Deu"); (6, str "Jos"); (7, str "Jdg"); (8, str "Rut");
    (9, str "1Sa"); (10, str "2Sa"); (11, str "1Ki"); (12, str "2Ki");
    (13, str "1Ch"); (14, str "2Ch"); (15, str "Ezr"); (16, str "Neh");
    (17, str "Est"); (18, str "Job"); (19, str "Psa"); (20, str "Pro");
    (21, str "Ecc"); (22, str "Son"); (23, str "Isa"); (24, str "Jer");
    (25, str "Lam"); (26, str "Eze"); (27, str "Dan"); (28, str "Hos");
    (29, str "Joe"); (30, str "Amo"); (31, str "Oba"); (32, str "Jon");
    (33, str "Mic"); (34, str "Nah"); (35, str "Hab"); (36, str "Zep");
    (37, str "Hag"); (38, str "Zec"); (39, str "Mal"); (40, str "Mat");
    (41, str "Mar"); (42, str "Luk"); (43, str "Joh"); (44, str "Act");
    (45, str "Rom"); (46, str "1Co"); (47, str "2Co"); (48, str "Gal");
    (49, str "Eph"); (50, str "Phi"); (51, str "Col"); (52, str "1Th");
    (53, str "2Th"); (54, str "1Ti"); (55, str "2Ti"); (56, str "Tit");
    (57, str "Phm"); (58, str "Heb"); (59, str "Jam"); (60, str "1Pe");
    (61, str "2Pe"); (62, str "1Jn"); (63, str "2Jn"); (64, str "3Jn");
    (65, str "Jud"); (66, str "Rev")
  ].

(** [formatParallelRef]: [GEN.5.2] becomes [Gen 5:2]. *)
Definition formatParallelRef (ref : list N) : list N :=
  match split_on 46 ref with
  | [bookCode; chapter; verse] =>
      let bookNum :=
        List.find
          (λ '(num, _),
             bool_decide (getBookCode (parseInt (Some num)) = Some bookCode))
          (entries bookAbbrev) in
      let abbr :=
        match bookNum with
        | Some (_, a) => a
        | None => bookCode
        end in
      abbr ++ str " " ++ chapter ++ str ":" ++ verse
  | _ => ref
  end.

(** * Specification-level notions *)

(** ** Skip markers, as the specification words them *)

Definition dash_run (t : list N) : Prop :=
  t ≠ [] ∧ Forall (λ c, c ∈ [45; 8211; 8212]) t.

Definition dots (d : list N) : Prop :=
  d ≠ [] ∧ Forall (λ c, c = 46) d.

Definition spaces (sp : list N) : Prop :=
  Forall (λ c, is_ws c = true) sp.

(** Three groups of full stops, with any amount of white space between
    them. *)
Definition ellipsis3 (t : list N) : Prop :=
  ∃ d1 sp1 d2 sp2 d3,
    t = d1 ++ sp1 ++ d2 ++ sp2 ++ d3 ∧
    dots d1 ∧ spaces sp1 ∧ dots d2 ∧ spaces sp2 ∧ dots d3.

Definition skip_marker (t : list N) : Prop :=
  dash_run t ∨ ellipsis3 t ∨ t = str "vvv".

(** ** Alignment, as the specification words it *)

(** Data model: a Strong's number that is present is a canonical identifier,
    in particular not the empty string. *)
Definition wf_strongs (ws : list BSBWord) : Prop :=
  Forall (λ wd : BSBWord, wd.2 ≠ Some []) ws.

(** Original entries with a Strong's number whose text is not pure
    punctuation. *)
Definition original_survivors (ows : list BSBWord) : list BSBWord :=
  filter (λ ow : BSBWord, is_Some ow.2 ∧ isPunctuation ow.1 = false) ows.

(** English entries with a Strong's number, not pure punctuation and not a
    skip marker. *)
Definition english_survivors (w : list BSBWord) : list BSBWord :=
  filter (λ ew : BSBWord,
            is_Some ew.2 ∧ isPunctuation ew.1 = false
            ∧ shouldSkipWord ew.1 ew.2 = false) w.

(** Text of the first entry of the original array that carries the Strong's
    number [sn]. *)
Fixpoint first_original_text (ows : list BSBWord) (sn : list N)
    : option (list N) :=
  match ows with
  | [] => None
  | (text, s) :: rest =>
      if bool_decide (s = Some sn) then Some text
      else first_original_text rest sn
  end.

(** [i] is the first English index with Strong's number [s] that is not
    consumed. *)
Definition first_unconsumed (w : list BSBWord) (used : gset nat)
    (s : option (list N)) (i : nat) : Prop :=
  (∃ t, w !! i = Some (t, s)) ∧ (i ∉ used)
  ∧ ∀ j t, (j < i)%nat → w !! j = Some (t, s) → j ∈ used.

(** One triple per original entry, each bound to the first unconsumed
    English entry with its Strong's number, which it consumes. *)
Inductive aligned (w : list BSBWord)
    : gset nat → list BSBWord → list WordPair → Prop :=
| aligned_nil used : aligned w used [] []
| aligned_match used o s i t rest out :
    w !! i = Some (t, s) →
    first_unconsumed w used s i →
    aligned w (used ∪ {[ i ]}) rest out →
    aligned w used ((o, s) :: rest) (mkPair o (cleanText t) s :: out)
| aligned_none used o s rest out :
    (∀ i t, w !! i = Some (t, s) → i ∈ used) →
    aligned w used rest out →
    aligned w used ((o, s) :: rest) (mkPair o [] s :: out).

(** Texts of the English entries with Strong's number [s], left to right. *)
Definition english_occurrences (w : list BSBWord) (s : option (list N))
    : list (list N) :=
  fst <$> (filter (λ ew : BSBWord, ew.2 = s) w).

(** Number of entries with Strong's number [s] among the first [n]. *)
Definition occurrences_before (l : list BSBWord) (s : option (list N))
    (n : nat) : nat :=
  length (filter (λ ow : BSBWord, ow.2 = s) (take n l)).

(** Indices and texts of the English entries with Strong's number [s], the
    first entry of [ws] having index [i]. *)
Fixpoint occ_from (i : nat) (ws : list BSBWord) (s : option (list N))
    : list (nat * list N) :=
  match ws with
  | [] => []
  | (t, s') :: rest =>
      if decide (s' = s) then (i, t) :: occ_from (S i) rest s
      else occ_from (S i) rest s
  end.

(** The consumed indices are, for each Strong's number, those of its first
    [cnt s] English occurrences. *)
Definition consumed_prefix (w : list BSBWord) (used : gset nat)
    (cnt : option (list N) → nat) : Prop :=
  ∀ s k j t, occ_from 0 w s !! k = Some (j, t) → j ∈ used ↔ (k < cnt s)%nat.

(** Text bound to the [k]-th original occurrence of Strong's number [s]: the
    cleaned text of the [k]-th English occurrence, or the empty string. *)
Definition kth_english (w : list BSBWord) (s : option (list N)) (k : nat)
    : list N :=
  match english_occurrences w s !! k with
  | Some t => cleanText t
  | None => []
  end.

(** The english field of [p] is the cleaned text of an English entry of the
    verse that carries the Strong's number of [p] and is not a skip marker. *)
Definition drawn_from_unskipped (verse : BSBVerse) (p : WordPair) : Prop :=
  ∃ text s, (text, s) ∈ verse_w verse ∧ shouldSkipWord text s = false
            ∧ strongs p = s ∧ english p = cleanText text.

(** ** Sample verses *)

(** Genesis 1:1, abridged: three tagged English words and their Hebrew
    counterparts (Hebrew texts shortened to their first letters). *)
Definition sample_w : list BSBWord :=
  [ (str "In", None); (str "the", None);
    (str "beginning", Some (str "H7225"));
    (str "God", Some (str "H0430"));
    (str "created", Some (str "H1254")) ].

Definition sample_heb : list BSBWord :=
  [ ([1489; 1512], Some (str "H7225"));
    ([1489; 1512; 1488], Some (str "H1254"));
    ([1488; 1500], Some (str "H0430")) ].

Definition verse_gen : BSBVerse := mkVerse 1 sample_w (Some sample_heb) None.

Definition verse_no_original : BSBVerse := mkVerse 1 sample_w None None.

(** A filler token tagged with the Strong's number of an original word. *)
Definition verse_filler : BSBVerse :=
  mkVerse 1 [ (str "vvv", Some (str "H0853")) ]
            (Some [ ([1488; 1514], Some (str "H0853")) ]) None.

(** A Strong's number that occurs twice on each side. *)
Definition verse_repeat : BSBVerse :=
  mkVerse 1
    [ (str "holy", Some (str "H6918")); (str ",", None);
      (str "[holy]", Some (str "H6918")) ]
    (Some [ ([1511; 1491], Some (str "H6918"));
            ([1475], None);
            ([1511; 1491; 1513], Some (str "H6918")) ])
    None.

(** ** Concordance search, as the specification words it *)

(** An integer in the range where JavaScript numbers are exact. *)
Definition safe_int (a : number) : bool :=
  match a with
  | Int z => (Z.abs z <? 2 ^ 53)%Z
  | NaN => false
  end.

(** A verse reference [BOOKCODE.CHAPTER.VERSE]: its chapter and verse are
    numerals, and its book code, canonical or not, is a code and not the
    name of a member that every object inherits. *)
Definition valid_ref (ref : list N) : bool :=
  match split_on 46 ref with
  | bookCode :: chapter :: verse :: _ =>
      negb (bool_decide (bookCode ∈ Object_prototype_members))
      && safe_int (parseInt (Some chapter))
      && safe_int (parseInt (Some verse))
  | _ => false
  end.

(** The book code of a verse reference: its part before the first full
    stop. *)
Definition book_code_of (ref : list N) : list N :=
  default [] (split_on 46 ref !! 0%nat).

(** The 66 canonical book codes. *)
Definition canonical_codes : list (list N) := snd <$> BOOK_CODES.

Definition result_key (r : DataApi.ConcordanceResult)
    : number * number * number :=
  (to_number (DataApi.bookNumber r), DataApi.chapter r, DataApi.verse r).

(** Lexicographic order on (book, chapter, verse); a triple with a [NaN] is
    not comparable. *)
Definition lex_le (a b : number * number * number) : Prop :=
  match a, b with
  | (Int a1, Int a2, Int a3), (Int b1, Int b2, Int b3) =>
      (a1 < b1 ∨ (a1 = b1 ∧ (a2 < b2 ∨ (a2 = b2 ∧ a3 ≤ b3))))%Z
  | _, _ => False
  end.

(** A book number of the Old Testament. *)
Definition old_testament_number (x : value) : Prop :=
  ∃ n, x = Int n ∧ (1 ≤ n ≤ 39)%Z.

(** The invariant of the concordance data: a number that starts with H is
    stored only with references to the books 1 to 39, a number that starts
    with G only with references to the books 40 to 66. *)
Definition testament_invariant
    (concordance : gmap (list N) (list (list N))) : Prop :=
  ∀ key refs ref,
    concordance !! key = Some refs → ref ∈ refs →
    (startsWith key 72 = true →
     ∃ n, (n, book_code_of ref) ∈ BOOK_CODES ∧ (1 ≤ n ≤ 39)%N)
    ∧ (startsWith key 71 = true →
       ∃ n, (n, book_code_of ref) ∈ BOOK_CODES ∧ (40 ≤ n ≤ 66)%N).

(** ** Sample concordance data *)

Definition sample_refs : list (list N) :=
  [ str "GEN.2.3"; str "EXO.1.1"; str "GEN.1.5" ].

Definition sample_concordance : gmap (list N) (list (list N)) :=
  {[ str "H0001" := sample_refs ]}.

(** References under a Hebrew key, one of them in Matthew and one with a
    book code that is not canonical. *)
Definition mixed_concordance : gmap (list N) (list (list N)) :=
  {[ str "H0001" := [ str "MAT.1.1"; str "GEN.2.3"; str "XYZ.4.5" ] ]}.


Definition sample_index : list (list N * IndexScan.BSBIndexEntry) :=
  [ (str "MAT.1.1",
     IndexScan.mkEntry (str "MAT.1.1") (str "MAT") (Int 1) (Int 1) []
                       (Some [ str "G0976"; str "H0001" ]));
    (str "GEN.1.1",
     IndexScan.mkEntry (str "GEN.1.1") (str "GEN") (Int 1) (Int 1) []
                       (Some [ str "H7225"; str "H0001" ])) ].

(** ** Book-code resolution, as the specification words it *)

(** The input resolves to a canonical code, directly or through the alias
    table, once upper-cased as the current module does. *)
Definition resolves (toUpperCase : list N → list N) (bookCode : list N)
    : Prop :=
  bookCode ≠ [] ∧
  (toUpperCase bookCode ∈ canonical_codes ∨
   ∃ c, BOOK_ALIASES !! toUpperCase bookCode = Some c ∧ c ∈ canonical_codes).

(** A book number of the canon. *)
Definition canonical_number (x : option number) : bool :=
  match x with
  | Some (Int n) => (1 <=? n)%Z && (n <=? 66)%Z
  | _ => false
  end.

(** ** Further specification-level notions *)

(** The characters of [PUNCTUATION_REGEX] other than white space. *)
Definition punctuation_marks : list N :=
  str ".,;:!?'()[]-" ++ [34; 8212; 8211; 1475; 1472].

(** The pressable words of the plain text mode, in order. *)
Definition clickables (spans : list (option Span))
    : list (list N * option (list N)) :=
  omap (λ sp, match sp with
              | Some (ClickableSpan text strongs) => Some (text, strongs)
              | _ => None
              end) spans.

(** [toUpperCase] leaves the canonical book codes as they are (they are made
    of capital letters and digits). *)
Definition fixes_canonical_codes (toUpperCase : list N → list N) : Prop :=
  ∀ c, c ∈ canonical_codes → toUpperCase c = c.

(** ** Navigation, specification-level notions *)

(** Every book number from 1 to 66 has an entry, with at least one
    chapter. *)
Definition books_ok (books : list BookDesc) : Prop :=
  ∀ n, (1 ≤ n ≤ 66)%Z →
       ∃ b, find_book books n = Some b ∧ (1 ≤ book_chapters b)%Z.

(** A chapter that exists. *)
Definition valid_position (books : list BookDesc) (p : Position) : Prop :=
  (1 ≤ bookNumber p ≤ 66)%Z ∧
  ∃ b, find_book books (bookNumber p) = Some b
       ∧ (1 ≤ chapter p ≤ book_chapters b)%Z.

(** The books of the canon with their numbers of chapters (names left
    out). *)
Definition sample_books : list BookDesc :=
  [
    mkBook 1 [] 50; mkBook 2 [] 40; mkBook 3 [] 27; mkBook 4 [] 36; mkBook 5 [] 34; mkBook 6 [] 24;
    mkBook 7 [] 21; mkBook 8 [] 4; mkBook 9 [] 31; mkBook 10 [] 24; mkBook 11 [] 22; mkBook 12 [] 25;
    mkBook 13 [] 29; mkBook 14 [] 36; mkBook 15 [] 10; mkBook 16 [] 13; mkBook 17 [] 10; mkBook 18 [] 42;
    mkBook 19 [] 150; mkBook 20 [] 31; mkBook 21 [] 12; mkBook 22 [] 8; mkBook 23 [] 66; mkBook 24 [] 52;
    mkBook 25 [] 5; mkBook 26 [] 48; mkBook 27 [] 12; mkBook 28 [] 14; mkBook 29 [] 3; mkBook 30 [] 9;
    mkBook 31 [] 1; mkBook 32 [] 4; mkBook 33 [] 7; mkBook 34 [] 3; mkBook 35 [] 3; mkBook 36 [] 3;
    mkBook 37 [] 2; mkBook 38 [] 14; mkBook 39 [] 4; mkBook 40 [] 28; mkBook 41 [] 16; mkBook 42 [] 24;
    mkBook 43 [] 21; mkBook 44 [] 28; mkBook 45 [] 16; mkBook 46 [] 16; mkBook 47 [] 13; mkBook 48 [] 6;
    mkBook 49 [] 6; mkBook 50 [] 4; mkBook 51 [] 4; mkBook 52 [] 5; mkBook 53 [] 3; mkBook 54 [] 6;
    mkBook 55 [] 4; mkBook 56 [] 3; mkBook 57 [] 1; mkBook 58 [] 13; mkBook 59 [] 5; mkBook 60 [] 5;
    mkBook 61 [] 3; mkBook 62 [] 5; mkBook 63 [] 1; mkBook 64 [] 1; mkBook 65 [] 1; mkBook 66 [] 22
  ].

(** The verses among the elements, and the headings among them. *)
Definition verses_of (els : list Element) : list BSBVerse :=
  omap (λ e, match e with VerseElement x => Some x | _ => None end) els.

Definition headings_of (els : list Element) : list BSBHeading :=
  omap (λ e, match e with HeadingElement h => Some h | _ => None end) els.

Definition sample_heading (before_v : Z) : BSBHeading :=
  mkHeading (str "h") (str "GEN") (Int 1) (Int before_v) (str "s1")
            (str "The Creation") [].

(** ** Index scan, specification-level notions *)

(** The index entries the scan keeps: those of the testament of the number
    that list the number. *)
Definition scan_keeps (normalized : list N) (entry : IndexScan.BSBIndexEntry)
    : bool :=
  eqb (startsWith normalized 72)
      (IndexScan.isOldTestament
         (lookup_or (BOOK_NUMBERS !! IndexScan.b entry) (Int 0)))
  && match IndexScan.s entry with
     | Some l => bool_decide (normalized ∈ l)
     | None => false
     end.

Definition scan_result (entry : IndexScan.BSBIndexEntry)
    : IndexScan.ConcordanceResult :=
  IndexScan.mkResult (IndexScan.b entry)
    (lookup_or (BOOK_NUMBERS !! IndexScan.b entry) (Int 0))
    (IndexScan.c entry) (IndexScan.v entry) (IndexScan.t entry).

Definition scan_key (r : IndexScan.ConcordanceResult)
    : number * number * number :=
  (to_number (IndexScan.bookNumber r), IndexScan.chapter r,
   IndexScan.verse r).

(** ** Sample lexicon *)

(** A Hebrew lexicon file with one entry (an entry is here its gloss), and a
    Greek file that cannot be fetched. *)
Definition sample_lexicon_env : Lexicon.Env (list N) :=
  Lexicon.mkEnv
    (Some (Lexicon.mkResponse true (Some [ (str "H0001", str "father") ])))
    None.

Definition empty_lexicon_cache : Lexicon.Cache (list N) :=
  Lexicon.mkCache None None.

(** ** Loading and caching, specification-level notions *)

(** A loaded verse has the words of at most one original language, Hebrew
    only in a book of the Old Testament and Greek only in another book. *)
Definition verse_testament_ok (isOT : bool) (x : Store.Verse) : Prop :=
  (Store.heb x = None ∨ Store.grk x = None)
  ∧ (is_Some (Store.heb x) → isOT = true)
  ∧ (is_Some (Store.grk x) → isOT = false).

Definition chapter_ok (toUpperCase : list N → list N)
    (ch : Store.BSBChapter) : Prop :=
  Store.book ch ∈ canonical_codes
  ∧ Forall (verse_testament_ok
              (DataApi.isOldTestament toUpperCase (Store.book ch)))
           (Store.verses ch).

(** Every cached chapter sits under the key of its own book and chapter. *)
Definition cache_ok {Entry : Type} (toUpperCase : list N → list N)
    (st : Store.State Entry) : Prop :=
  ∀ k ch, Store.chapterCache st !! k = Some ch →
          k = Store.cache_key (Store.book ch) (Store.chapter ch)
          ∧ chapter_ok toUpperCase ch.

(** Order of verse numbers. *)
Definition num_le (a b : number) : Prop :=
  match a, b with
  | Int x, Int y => (x ≤ y)%Z
  | _, _ => False
  end.

(** ** Sample network *)

(** One display file, for Genesis 1, with two verses given out of order;
    nothing else can be fetched. *)
Definition sample_display : Store.DisplayData :=
  Store.mkData
    (Some [ (str "2", [ (str "Now", None) ]); (str "1", sample_w) ])
    (Some [ (str "1", sample_heb) ])
    None.

Definition sample_fetch : list N → option Store.Response :=
  λ url,
    if bool_decide (url = str "/bsb-data/display/GEN/GEN1.json")
    then Some (Store.mkResponse true 200 None (Some sample_display) None)
    else if bool_decide (url = str "/bsb-data/index-cc-by/GEN/GEN1.jsonl")
    then Some (Store.mkResponse false 404 None None None)
    else None.

Definition offline : list N → option Store.Response := λ _, None.

Definition empty_state : Store.State (list N) := Store.mkState ∅ ∅ None None.

(** ** More sample network *)

(** An index file of two lines for Genesis 1 (an entry is here its line),
    and the concordance file. *)
Definition sample_index_fetch : list N → option Store.Response :=
  λ url,
    if bool_decide (url = str "/bsb-data/index-cc-by/GEN/GEN1.jsonl")
    then Some (Store.mkResponse true 200 (Some (str "A" ++ [10] ++ str "B"
                                                 ++ [10]))
                                None None)
    else if bool_decide
              (url = str "/bsb-data/concordance/strongs-to-verses.json")
    then Some (Store.mkResponse true 200 None None
                 (Some [ (str "H0001", sample_refs) ]))
    else None.

Definition no_heading : list N → option BSBHeading := λ _, None.

Definition line_entry : list N → option (list N) :=
  λ line, match line with [] => None | _ :: _ => Some line end.

(** * Properties *)

(** Closes a [Forall] over a list given by its elements, each element by
    evaluation. *)
Ltac Forall_by_evaluation :=
  repeat (apply Forall_cons_2; [by vm_compute|]); apply Forall_nil_2.

(** ** The matcher *)

Lemma rep_spec p k i s :
  rep p k i s = true ↔
  ∃ a r, s = a ++ r ∧ forallb p a = true ∧ k (i + length a)%nat r = true.
Proof.
  revert i. induction s as [|c s IH]; intros i; simpl.
  - rewrite orb_false_r. split.
    + intros H. exists [], []. simpl. by rewrite Nat.add_0_r.
    + intros (a & r & Heq & _ & Hk).
      symmetry in Heq. apply app_eq_nil in Heq as [-> ->].
      simpl in Hk. by rewrite Nat.add_0_r in Hk.
  - rewrite orb_true_iff, andb_true_iff, IH. split.
    + intros [Hk | (Hc & a & r & -> & Ha & Hk)].
      * exists [], (c :: s). simpl. by rewrite Nat.add_0_r.
      * exists (c :: a), r. simpl. rewrite Hc, Ha.
        by rewrite Nat.add_succ_r.
    + intros (a & r & Heq & Ha & Hk). destruct a as [|c' a]; simpl in *.
      * left. subst r. by rewrite Nat.add_0_r in Hk.
      * right. injection Heq as <- ->.
        apply andb_true_iff in Ha as [Hc Ha]. split; [done|].
        exists a, r. by rewrite Nat.add_succ_r in Hk.
Qed.

Lemma match_plus p r i s :
  match_here (Cls Plus p :: r) i s = true ↔
  ∃ a b, a ≠ [] ∧ s = a ++ b ∧ forallb p a = true
         ∧ match_here r (i + length a)%nat b = true.
Proof.
  simpl. destruct s as [|c s].
  - split; [done|]. intros (a & b & Ha & Heq & _).
    symmetry in Heq. by apply app_eq_nil in Heq as [-> _].
  - rewrite andb_true_iff, rep_spec. split.
    + intros (Hc & a & b & -> & Ha & Hk).
      exists (c :: a), b. simpl. rewrite Hc, Ha.
      by rewrite Nat.add_succ_r.
    + intros (a & b & Hne & Heq & Ha & Hk). destruct a as [|c' a]; [done|].
      simpl in *. injection Heq as <- ->.
      apply andb_true_iff in Ha as [Hc Ha]. split; [done|].
      exists a, b. by rewrite Nat.add_succ_r in Hk.
Qed.

Lemma match_star p r i s :
  match_here (Cls Star p :: r) i s = true ↔
  ∃ a b, s = a ++ b ∧ forallb p a = true
         ∧ match_here r (i + length a)%nat b = true.
Proof. simpl. apply rep_spec. Qed.

Lemma match_eol i s : match_here [Eol] i s = true ↔ s = [].
Proof. simpl. by destruct s. Qed.

Lemma match_bol r i s :
  match_here (Bol :: r) i s = true ↔ i = 0%nat ∧ match_here r i s = true.
Proof. simpl. by rewrite andb_true_iff, Nat.eqb_eq. Qed.

(** A regular expression whose alternatives all start with [^] matches from
    index 0 or not at all. *)
Lemma test_anchored re s :
  Forall (λ alt, ∃ r, alt = Bol :: r) re →
  test re s = existsb (λ alt, match_here alt 0 s) re.
Proof.
  intros Hre. unfold test. induction Hre as [|alt re [r ->] _ IH]; [done|].
  cbn [existsb]. rewrite IH. f_equal.
  cbn [seq existsb]. rewrite drop_0.
  destruct (match_here (Bol :: r) 0 s) eqn:E0; [done|]. simpl.
  apply not_true_is_false. intros H.
  apply existsb_exists in H as (i & Hi & Hm).
  apply match_bol in Hm as [-> _]. apply in_seq in Hi. lia.
Qed.

Lemma forallb_Forall_iff {A} (p : A → bool) (P : A → Prop) l :
  (∀ x, p x = true ↔ P x) → forallb p l = true ↔ Forall P l.
Proof.
  intros Hp. rewrite forallb_forall, Forall_forall.
  split; intros H x Hx.
  - apply Hp, H. by apply list_elem_of_In.
  - apply Hp, H. by apply list_elem_of_In.
Qed.

Lemma dash_class_spec c : dash_class c = true ↔ c ∈ [45; 8211; 8212].
Proof.
  unfold dash_class. rewrite !orb_true_iff, !N.eqb_eq.
  rewrite !elem_of_cons, elem_of_nil. tauto.
Qed.

Lemma dot_class_spec c : dot_class c = true ↔ c = 46.
Proof. unfold dot_class. by rewrite N.eqb_eq. Qed.

Lemma bracket_class_spec c :
  bracket_class c = true ↔ c ∈ str "[]{}".
Proof.
  unfold bracket_class. rewrite !orb_true_iff, !N.eqb_eq.
  change (str "[]{}") with [91; 93; 123; 125].
  rewrite !elem_of_cons, elem_of_nil. tauto.
Qed.

(** ** Text classifier *)

Lemma replace_class_g_nil p s :
  replace_class_g p [] s = List.filter (λ c, negb (p c)) s.
Proof.
  induction s as [|c s IH]; [done|]. simpl. rewrite IH. by destruct (p c).
Qed.

Lemma cleanText_filter s : cleanText s = filter (λ c, c ∉ str "[]{}") s.
Proof.
  unfold cleanText. induction s as [|c s IH]; [done|]. simpl. rewrite IH.
  destruct (bracket_class c) eqn:E.
  - apply bracket_class_spec in E. by rewrite filter_cons_False by tauto.
  - rewrite filter_cons_True; [done|].
    intros H. apply bracket_class_spec in H. congruence.
Qed.

(** C9. [cleanText] removes exactly the square brackets and curly braces of
    its argument, keeps every other code unit (in order, with its
    multiplicity), and is idempotent. *)
Theorem cleanText_brackets_idempotent (s : list N) :
  cleanText s = filter (λ c, c ∉ str "[]{}") s
  ∧ cleanText (cleanText s) = cleanText s.
Proof.
  split; [apply cleanText_filter|].
  rewrite !cleanText_filter. induction s as [|c s IH]; [done|].
  rewrite (filter_cons _ c). destruct (decide (c ∉ str "[]{}")); [|done].
  rewrite filter_cons_True by done. by rewrite IH.
Qed.

Lemma truthy_spec strongs :
  truthy strongs = true ↔ ∃ sn, strongs = Some sn ∧ sn ≠ [].
Proof.
  destruct strongs as [[|c sn]|]; simpl; split; try done.
  - by intros (sn & [= <-] & ?).
  - intros _. by eexists.
  - by intros (? & ? & _).
Qed.

Lemma match_dash_run t :
  match_here [Bol; Cls Plus dash_class; Eol] 0 t = true ↔ dash_run t.
Proof.
  rewrite match_bol, match_plus. unfold dash_run. split.
  - intros (_ & a & b & Hne & -> & Ha & Hb).
    apply match_eol in Hb as ->. rewrite app_nil_r. split; [done|].
    by apply (forallb_Forall_iff _ _ _ dash_class_spec).
  - intros [Hne Ha]. split; [done|]. exists t, []. rewrite app_nil_r.
    repeat split; try done.
    by apply (forallb_Forall_iff _ _ _ dash_class_spec).
Qed.

Lemma match_vvv t :
  match_here [Bol; Cls One v_class; Cls One v_class; Cls One v_class; Eol]
             0 t = true ↔ t = str "vvv".
Proof.
  change (str "vvv") with [118; 118; 118]. unfold v_class. simpl.
  destruct t as [|c1 [|c2 [|c3 [|c4 t]]]]; simpl;
    rewrite ?andb_false_r; try (split; [done|intros [=]]).
  rewrite andb_true_r, !andb_true_iff, !N.eqb_eq.
  split; [by intros (-> & -> & ->)|by intros [= -> -> ->]].
Qed.

Lemma dots_forallb d : d ≠ [] ∧ forallb dot_class d = true ↔ dots d.
Proof.
  unfold dots. by rewrite (forallb_Forall_iff _ _ _ dot_class_spec).
Qed.

Lemma spaces_forallb sp : forallb is_ws sp = true ↔ spaces sp.
Proof. unfold spaces. by apply forallb_Forall_iff. Qed.

Lemma match_ellipsis3 t :
  match_here [Bol; Cls Plus dot_class; Cls Star is_ws; Cls Plus dot_class;
              Cls Star is_ws; Cls Plus dot_class; Eol] 0 t = true
  ↔ ellipsis3 t.
Proof.
  rewrite match_bol, match_plus. unfold ellipsis3. split.
  - intros (_ & d1 & r1 & Hn1 & -> & Hd1 & H).
    apply match_star in H as (sp1 & r2 & -> & Hs1 & H).
    apply match_plus in H as (d2 & r3 & Hn2 & -> & Hd2 & H).
    apply match_star in H as (sp2 & r4 & -> & Hs2 & H).
    apply match_plus in H as (d3 & r5 & Hn3 & -> & Hd3 & H).
    apply match_eol in H as ->. rewrite app_nil_r.
    exists d1, sp1, d2, sp2, d3.
    rewrite <- !dots_forallb, <- !spaces_forallb. done.
  - intros (d1 & sp1 & d2 & sp2 & d3 & -> & H1 & Hs1 & H2 & Hs2 & H3).
    apply dots_forallb in H1 as [Hn1 Hd1], H2 as [Hn2 Hd2], H3 as [Hn3 Hd3].
    apply spaces_forallb in Hs1, Hs2.
    split; [done|]. exists d1, (sp1 ++ d2 ++ sp2 ++ d3).
    repeat split; try done.
    apply match_star. exists sp1, (d2 ++ sp2 ++ d3). repeat split; try done.
    apply match_plus. exists d2, (sp2 ++ d3). repeat split; try done.
    apply match_star. exists sp2, d3. repeat split; try done.
    apply match_plus. exists d3, []. rewrite app_nil_r.
    repeat split; try done.
Qed.

Lemma test_SKIP_MARKERS_REGEX t :
  test SKIP_MARKERS_REGEX t = true ↔ skip_marker t.
Proof.
  rewrite test_anchored by (repeat constructor; by eexists).
  unfold SKIP_MARKERS_REGEX, skip_marker. cbn [existsb].
  rewrite !orb_true_iff, match_dash_run, match_ellipsis3, match_vvv.
  intuition discriminate.
Qed.

Lemma test_PUNCTUATION_REGEX t :
  isPunctuation t = true ↔ t ≠ [] ∧ forallb punct_class t = true.
Proof.
  unfold isPunctuation.
  rewrite test_anchored by (repeat constructor; by eexists).
  unfold PUNCTUATION_REGEX. cbn [existsb]. rewrite orb_false_r.
  rewrite match_bol, match_plus. split.
  - intros (_ & a & b & Hne & -> & Ha & Hb).
    apply match_eol in Hb as ->. by rewrite app_nil_r.
  - intros [Hne Ha]. split; [done|]. exists t, []. by rewrite app_nil_r.
Qed.

Example isPunctuation_em_dash : isPunctuation [8212] = true.
Proof. reflexivity. Qed.

Example isPunctuation_spaced_stop : isPunctuation (str " . ") = true.
Proof. reflexivity. Qed.

Example isPunctuation_word : isPunctuation (str "word") = false.
Proof. reflexivity. Qed.

Example shouldSkipWord_spaced_ellipsis :
  shouldSkipWord (str " . .  .") (Some (str "H0853")) = true.
Proof. reflexivity. Qed.

(** C4, as the code has it. [shouldSkipWord] holds exactly when the Strong's
    number is a non-empty string and the trimmed text is a run of dashes
    (hyphen, en dash, em dash, with nothing between them), three groups of
    full stops with any white space between the groups, or the token vvv.
    So three dashes in a row are skipped, while dashes separated by blanks
    are not, with or without a Strong's number. *)
Theorem shouldSkipWord_spec (text : list N) (strongs : option (list N)) :
  (shouldSkipWord text strongs = true ↔
     (∃ sn, strongs = Some sn ∧ sn ≠ []) ∧ skip_marker (trim text))
  ∧ shouldSkipWord (str "---") (Some (str "H1234")) = true
  ∧ shouldSkipWord (str "- - -") (Some (str "H1234")) = false
  ∧ shouldSkipWord (str "- - -") None = false.
Proof.
  split; [|by vm_compute].
  unfold shouldSkipWord.
  by rewrite andb_true_iff, truthy_spec, test_SKIP_MARKERS_REGEX.
Qed.

(** C4 as stated fails: the text of three dashes separated by blanks, with
    Strong's number H1234, is not skipped; and a present but empty Strong's
    number never makes a word skipped. *)
Lemma shouldSkipWord_spaced_dashes :
  shouldSkipWord (str "- - -") (Some (str "H1234")) = false
  ∧ (is_Some (Some ([] : list N)) ∧ skip_marker (trim (str "vvv"))
     ∧ shouldSkipWord (str "vvv") (Some []) = false).
Proof.
  split; [by vm_compute|]. split; [by eexists|]. split; [|by vm_compute].
  right; right. by vm_compute.
Qed.

(** ** Alignment engine: English order *)

Lemma originalWordMap_foldl (ows : list BSBWord)
    (m : gmap (list N) (list N)) (sn : list N) :
  sn ≠ [] →
  foldl originalWordMap_step m ows !! sn =
  match m !! sn with
  | Some t => Some t
  | None => first_original_text ows sn
  end.
Proof.
  intros Hsn. revert m.
  induction ows as [|[text [s0|]] ows IH]; intros m; simpl.
  - by destruct (m !! sn).
  - rewrite IH. destruct (decide (s0 = sn)) as [->|Hne].
    + rewrite (bool_decide_eq_true_2 (Some sn = Some sn)) by done.
      destruct sn as [|c sn]; [done|]. simpl.
      destruct (m !! (c :: sn)) as [t|] eqn:E.
      * rewrite bool_decide_eq_true_2 by by eexists. simpl. by rewrite E.
      * rewrite bool_decide_eq_false_2 by by intros [? [=]]. simpl.
        by rewrite lookup_insert_eq.
    + rewrite (bool_decide_eq_false_2 (Some s0 = Some sn)) by congruence.
      destruct (_ && negb (bool_decide (is_Some (m !! s0)))); [|done].
      by rewrite lookup_insert_ne.
  - by rewrite IH.
Qed.

Lemma build_originalWordMap_lookup (ows : list BSBWord) (sn : list N) :
  sn ≠ [] → build_originalWordMap ows !! sn = first_original_text ows sn.
Proof.
  intros Hsn. unfold build_originalWordMap.
  by rewrite originalWordMap_foldl, lookup_empty.
Qed.

Lemma truthy_is_Some (s : option (list N)) :
  s ≠ Some [] → truthy s = true ↔ is_Some s.
Proof.
  destruct s as [[|c sn]|]; simpl; intros H; split; try done;
    by intros [? [=]].
Qed.

Lemma english_filter_spec (text : list N) (s : option (list N)) :
  s ≠ Some [] →
  english_filter (text, s) = true ↔
  is_Some s ∧ isPunctuation text = false ∧ shouldSkipWord text s = false.
Proof.
  intros Hs. unfold english_filter.
  rewrite !andb_true_iff, !negb_true_iff, (truthy_is_Some _ Hs). tauto.
Qed.

Lemma english_order_pairs_spec (w ows : list BSBWord) :
  wf_strongs w →
  english_order_pairs w (build_originalWordMap ows) =
  (λ ew : BSBWord,
     mkPair (default [] (ew.2 ≫= first_original_text ows))
            (cleanText ew.1) ew.2) <$> english_survivors w.
Proof.
  unfold english_order_pairs, english_survivors.
  induction 1 as [|[text s] w Hs _ IH]; [done|]. simpl in Hs.
  rewrite filter_cons. cbn [List.filter].
  destruct (english_filter (text, s)) eqn:E.
  - apply (english_filter_spec _ _ Hs) in E as HE.
    rewrite decide_True by done. cbn [List.map fmap list_fmap].
    f_equal; [|apply IH].
    destruct HE as [[sn ->] _]. simpl. f_equal.
    rewrite build_originalWordMap_lookup by (by intros ->).
    by destruct (first_original_text ows sn) as [[|]|].
  - rewrite decide_False; [apply IH|].
    intros HE. apply (english_filter_spec text s Hs) in HE. congruence.
Qed.

Lemma wordPairs_english_order useHebrewWordOrder verse :
  useHebrewWordOrder = false ∨ originalWords verse = [] →
  wordPairs useHebrewWordOrder verse =
  english_order_pairs (verse_w verse)
                      (build_originalWordMap (originalWords verse)).
Proof.
  unfold wordPairs. intros [-> | ->]; [done|]. by rewrite andb_false_r.
Qed.

(** C2. In English order (requested, or forced by an empty original array)
    the output has one triple per English entry that has a Strong's number,
    is not pure punctuation and is not a skip marker, in English order; the
    original field is the text of the first original entry with that
    Strong's number, or the empty string when there is none; nothing is
    consumed, so two triples with the same Strong's number have the same
    original text. *)
Theorem english_order_alignment (useHebrewWordOrder : bool)
    (verse : BSBVerse) :
  useHebrewWordOrder = false ∨ originalWords verse = [] →
  wf_strongs (verse_w verse) →
  wordPairs useHebrewWordOrder verse =
    (λ ew : BSBWord,
       mkPair (default [] (ew.2 ≫= first_original_text (originalWords verse)))
              (cleanText ew.1) ew.2) <$> english_survivors (verse_w verse)
  ∧ (∀ p q, p ∈ wordPairs useHebrewWordOrder verse →
            q ∈ wordPairs useHebrewWordOrder verse →
            strongs p = strongs q → original p = original q).
Proof.
  intros Horder Hwf.
  rewrite (wordPairs_english_order _ _ Horder), english_order_pairs_spec
    by done.
  split; [done|]. intros p q Hp Hq.
  apply list_elem_of_fmap in Hp as (ep & -> & _).
  apply list_elem_of_fmap in Hq as (eq & -> & _).
  simpl. by intros ->.
Qed.

Lemma english_order_alignment_witness :
  wordPairs false verse_gen =
    (λ ew : BSBWord,
       mkPair (default [] (ew.2 ≫= first_original_text
                                     (originalWords verse_gen)))
              (cleanText ew.1) ew.2) <$> english_survivors (verse_w verse_gen).
Proof.
  apply (english_order_alignment false verse_gen).
  - by left.
  - unfold wf_strongs. simpl. Forall_by_evaluation.
Defined.

Example wordPairs_gen_english_order :
  wordPairs false verse_gen =
  [ mkPair [1489; 1512] (str "beginning") (Some (str "H7225"));
    mkPair [1488; 1500] (str "God") (Some (str "H0430"));
    mkPair [1489; 1512; 1488] (str "created") (Some (str "H1254")) ].
Proof. by vm_compute. Qed.

Example wordPairs_gen_original_order :
  wordPairs true verse_gen =
  [ mkPair [1489; 1512] (str "beginning") (Some (str "H7225"));
    mkPair [1489; 1512; 1488] (str "created") (Some (str "H1254"));
    mkPair [1488; 1500] (str "God") (Some (str "H0430")) ].
Proof. by vm_compute. Qed.

Lemma build_originalWordMap_nil : build_originalWordMap [] = ∅.
Proof. reflexivity. Qed.

(** C5. When the verse has no original-language array, or an empty one, the
    output is in English order whatever order is requested, and the original
    field of every triple is the empty string. *)
Theorem missing_original_falls_back (useHebrewWordOrder : bool)
    (verse : BSBVerse) :
  originalWords verse = [] →
  wordPairs useHebrewWordOrder verse =
    (λ ew : BSBWord, mkPair [] (cleanText ew.1) ew.2)
      <$> List.filter english_filter (verse_w verse)
  ∧ wordPairs useHebrewWordOrder verse = wordPairs false verse
  ∧ Forall (λ p, original p = []) (wordPairs useHebrewWordOrder verse).
Proof.
  intros Hnil.
  assert (wordPairs useHebrewWordOrder verse =
          (λ ew : BSBWord, mkPair [] (cleanText ew.1) ew.2)
            <$> List.filter english_filter (verse_w verse)) as Heq.
  { rewrite wordPairs_english_order by by right.
    rewrite Hnil, build_originalWordMap_nil. unfold english_order_pairs.
    apply map_ext. intros [text [sn|]]; simpl; [|done].
    by rewrite lookup_empty. }
  split; [done|]. split.
  - rewrite !wordPairs_english_order; [done|by left|by right].
  - rewrite Heq. apply Forall_fmap, Forall_true. done.
Qed.

Lemma missing_original_falls_back_witness :
  wordPairs true verse_no_original =
    (λ ew : BSBWord, mkPair [] (cleanText ew.1) ew.2)
      <$> List.filter english_filter (verse_w verse_no_original)
  ∧ wordPairs true verse_no_original = wordPairs false verse_no_original
  ∧ Forall (λ p, original p = []) (wordPairs true verse_no_original).
Proof.
  apply (missing_original_falls_back true verse_no_original). reflexivity.
Defined.

(** ** Alignment engine: skip markers *)

Lemma english_filter_unskipped text s :
  english_filter (text, s) = true → shouldSkipWord text s = false.
Proof.
  unfold english_filter. rewrite !andb_true_iff, !negb_true_iff. tauto.
Qed.

Lemma find_english_drawn (ws : list BSBWord) (i : nat)
    (s : option (list N)) (used : gset nat) (j : nat) (e : list N) :
  find_english ws i s used = Some (j, e) →
  ∃ text, (text, s) ∈ ws ∧ e = cleanText text.
Proof.
  revert i. induction ws as [|[engText engStrongs] ws IH]; intros i; simpl.
  - done.
  - destruct (bool_decide (engStrongs = s) && _) eqn:E.
    + intros [= <- <-]. apply andb_true_iff in E as [E _].
      apply bool_decide_eq_true in E as ->.
      exists engText. split; [left|done].
    + intros H. apply IH in H as (text & Hin & ->).
      exists text. split; [by right|done].
Qed.

Lemma original_order_drawn (w : list BSBWord) (used : gset nat)
    (l : list BSBWord) (p : WordPair) :
  p ∈ (map_state (original_order_step w) used l).2 →
  english p = [] ∨ ∃ text, (text, strongs p) ∈ w ∧ english p = cleanText text.
Proof.
  revert used. induction l as [|[o s] l IH]; intros used; simpl.
  - by intros ?%elem_of_nil.
  - destruct (find_english w 0 s used) as [[i e]|] eqn:E.
    + destruct (map_state _ (used ∪ {[i]}) l) as [st2 ys] eqn:E2. simpl.
      intros [->|Hin]%elem_of_cons.
      * right. simpl. by eapply find_english_drawn.
      * apply (IH (used ∪ {[i]})). by rewrite E2.
    + destruct (map_state _ used l) as [st2 ys] eqn:E2. simpl.
      intros [->|Hin]%elem_of_cons.
      * by left.
      * apply (IH used). by rewrite E2.
Qed.

(** C3, as the code has it. Every emitted triple has an empty english field
    or the cleaned text of an English entry with the triple's Strong's number;
    in English order (requested, or forced by an empty original array) that
    entry is never a skip marker. In original-language order no skip-marker
    test is applied to the English entries. *)
Theorem skip_markers_excluded_in_english_order (useHebrewWordOrder : bool)
    (verse : BSBVerse) (p : WordPair) :
  p ∈ wordPairs useHebrewWordOrder verse →
  (english p = [] ∨
   ∃ text, (text, strongs p) ∈ verse_w verse ∧ english p = cleanText text)
  ∧ (useHebrewWordOrder = false ∨ originalWords verse = [] →
     drawn_from_unskipped verse p).
Proof.
  intros Hp.
  assert (p ∈ english_order_pairs (verse_w verse)
                (build_originalWordMap (originalWords verse)) →
          drawn_from_unskipped verse p) as Heng.
  { unfold english_order_pairs. intros Hin.
    apply list_elem_of_In, in_map_iff in Hin as ([text s] & <- & Hin).
    apply filter_In in Hin as [Hin Hf].
    exists text, s. repeat split; try done.
    - by apply list_elem_of_In.
    - by apply english_filter_unskipped. }
  split.
  - unfold wordPairs in Hp.
    destruct (useHebrewWordOrder && _).
    + by eapply original_order_drawn.
    + destruct (Heng Hp) as (text & s & Hin & _ & <- & Heq).
      right. by exists text.
  - intros Horder. apply Heng.
    by rewrite <- (wordPairs_english_order useHebrewWordOrder).
Qed.

Lemma skip_markers_excluded_witness :
  drawn_from_unskipped verse_gen
    (mkPair [1489; 1512] (str "beginning") (Some (str "H7225"))).
Proof.
  refine (proj2 (skip_markers_excluded_in_english_order false verse_gen _ _)
                _).
  - vm_compute. left.
  - by left.
Defined.

(** C3 as stated fails in original-language order: the filler token tagged
    H0853 becomes the english field of the triple of the original word. *)
Lemma skip_marker_drawn_in_original_order :
  ∃ p, p ∈ wordPairs true verse_filler ∧ english p ≠ []
       ∧ ¬ drawn_from_unskipped verse_filler p.
Proof.
  exists (mkPair [1488; 1514] (str "vvv") (Some (str "H0853"))).
  split; [vm_compute; left|]. split; [done|].
  intros (text & s & Hin & Hskip & _ & _).
  apply list_elem_of_singleton in Hin as [= -> ->]. by vm_compute in Hskip.
Qed.

(** ** Alignment engine: original-language order *)

Lemma find_english_Some (ws : list BSBWord) (i : nat) (s : option (list N))
    (used : gset nat) (j : nat) (e : list N) :
  find_english ws i s used = Some (j, e) →
  ∃ t, (i ≤ j)%nat ∧ ws !! (j - i)%nat = Some (t, s) ∧ (j ∉ used)
       ∧ e = cleanText t
       ∧ ∀ k t', (i ≤ k)%nat → (k < j)%nat →
                 ws !! (k - i)%nat = Some (t', s) → k ∈ used.
Proof.
  revert i. induction ws as [|[engText engStrongs] ws IH]; intros i; simpl.
  - done.
  - destruct (bool_decide (engStrongs = s)) eqn:Es;
      destruct (bool_decide (i ∈ used)) eqn:Eu; simpl.
    all: try (intros H; apply IH in H as (t & Hle & Hl & Hu & -> & Hmin);
              exists t; split; [lia|]; split;
              [by replace (j - i)%nat with (S (j - S i)) by lia|];
              split; [done|]; split; [done|];
              intros k t' Hik Hkj Hk;
              destruct (decide (k = i)) as [->|Hne];
              [|apply (Hmin k t'); [lia|lia|];
                by replace (k - i)%nat with (S (k - S i)) in Hk by lia]).
    + by apply bool_decide_eq_true in Eu.
    + intros [= <- <-]. apply bool_decide_eq_true in Es as ->.
      apply bool_decide_eq_false in Eu.
      exists engText. rewrite Nat.sub_diag. repeat split; try done. lia.
    + rewrite Nat.sub_diag in Hk. injection Hk as -> ->.
      by apply bool_decide_eq_false in Es.
    + rewrite Nat.sub_diag in Hk. injection Hk as -> ->.
      by apply bool_decide_eq_false in Es.
Qed.

Lemma find_english_None (ws : list BSBWord) (i : nat) (s : option (list N))
    (used : gset nat) :
  find_english ws i s used = None →
  ∀ k t, ws !! k = Some (t, s) → (i + k)%nat ∈ used.
Proof.
  revert i. induction ws as [|[engText engStrongs] ws IH]; intros i; simpl.
  - by intros _ k t.
  - destruct (bool_decide (engStrongs = s)) eqn:Es;
      destruct (bool_decide (i ∈ used)) eqn:Eu; simpl; try done.
    all: intros H [|k] t Hk; simpl in Hk;
      [|rewrite Nat.add_succ_r; by apply (IH (S i) H k t)].
    + rewrite Nat.add_0_r. by apply bool_decide_eq_true in Eu.
    + injection Hk as -> ->. by apply bool_decide_eq_false in Es.
    + injection Hk as -> ->. by apply bool_decide_eq_false in Es.
Qed.

Lemma original_order_aligned (w : list BSBWord) (used : gset nat)
    (l : list BSBWord) :
  aligned w used l (map_state (original_order_step w) used l).2.
Proof.
  revert used. induction l as [|[o s] l IH]; intros used; simpl.
  - constructor.
  - destruct (find_english w 0 s used) as [[i e]|] eqn:E.
    + specialize (IH (used ∪ {[i]})).
      destruct (map_state _ (used ∪ {[i]}) l) as [st2 ys]. simpl in *.
      apply find_english_Some in E as (t & _ & Hl & Hu & -> & Hmin).
      rewrite Nat.sub_0_r in Hl.
      eapply aligned_match; [done| |done].
      split; [by exists t|]. split; [done|].
      intros j t' Hj Hjl. apply (Hmin j t'); [lia|done|].
      by rewrite Nat.sub_0_r.
    + specialize (IH used).
      destruct (map_state _ used l) as [st2 ys]. simpl in *.
      apply aligned_none; [|done].
      intros i t Hi. by apply (find_english_None _ _ _ _ E i t).
Qed.

Lemma original_filter_survivors (ows : list BSBWord) :
  wf_strongs ows → List.filter original_filter ows = original_survivors ows.
Proof.
  unfold original_survivors.
  induction 1 as [|[text s] ows Hs _ IH]; [done|]. simpl in Hs.
  rewrite filter_cons. cbn [List.filter]. unfold original_filter at 1.
  destruct (truthy s && negb (isPunctuation text)) eqn:E.
  - rewrite decide_True; [by rewrite IH|].
    apply andb_true_iff in E as [E1 E2]. simpl.
    split; [by apply truthy_is_Some|by apply negb_true_iff].
  - rewrite decide_False; [done|]. simpl. intros [H1 H2].
    apply (truthy_is_Some _ Hs) in H1. by rewrite H1, H2 in E.
Qed.

Lemma find_english_occ (ws : list BSBWord) (i : nat) (s : option (list N))
    (used : gset nat) :
  find_english ws i s used =
  (λ jt : nat * list N, (jt.1, cleanText jt.2))
    <$> head (filter (λ jt : nat * list N, jt.1 ∉ used) (occ_from i ws s)).
Proof.
  revert i. induction ws as [|[t s'] ws IH]; intros i; [done|]. simpl.
  destruct (decide (s' = s)) as [->|Hne].
  - rewrite bool_decide_eq_true_2 by done. rewrite filter_cons. simpl.
    destruct (decide (i ∉ used)) as [Hi|Hi].
    + by rewrite bool_decide_eq_false_2.
    + rewrite bool_decide_eq_true_2; [apply IH|].
      by destruct (decide (i ∈ used)).
  - rewrite bool_decide_eq_false_2 by done. apply IH.
Qed.

Lemma occ_from_lookup (ws : list BSBWord) (i : nat) (s : option (list N))
    (k j : nat) (t : list N) :
  occ_from i ws s !! k = Some (j, t) →
  (i ≤ j)%nat ∧ ws !! (j - i)%nat = Some (t, s).
Proof.
  revert i k. induction ws as [|[t' s'] ws IH]; intros i k; [done|]. simpl.
  assert (∀ k, occ_from (S i) ws s !! k = Some (j, t) →
               (i ≤ j)%nat ∧ ((t', s') :: ws) !! (j - i)%nat = Some (t, s))
    as Hrec.
  { intros k' H. apply IH in H as [Hle Hl]. split; [lia|].
    by replace (j - i)%nat with (S (j - S i)) by lia. }
  destruct (decide (s' = s)) as [->|Hne]; [|apply Hrec].
  destruct k as [|k]; simpl; [|apply Hrec].
  intros [= <- <-]. by rewrite Nat.sub_diag.
Qed.

Lemma occ_from_increasing (ws : list BSBWord) (i : nat)
    (s : option (list N)) (k1 k2 j1 j2 : nat) (t1 t2 : list N) :
  (k1 < k2)%nat →
  occ_from i ws s !! k1 = Some (j1, t1) →
  occ_from i ws s !! k2 = Some (j2, t2) →
  (j1 < j2)%nat.
Proof.
  revert i k1 k2. induction ws as [|[t' s'] ws IH]; intros i k1 k2; [done|].
  simpl. destruct (decide (s' = s)) as [->|Hne]; [|apply IH].
  destruct k1 as [|k1], k2 as [|k2]; simpl; try lia.
  - intros _ [= <- <-] H2. apply occ_from_lookup in H2. lia.
  - intros Hlt. apply IH. lia.
Qed.

Lemma occ_from_index_inj (ws : list BSBWord) (i : nat) (s : option (list N))
    (k1 k2 j : nat) (t1 t2 : list N) :
  occ_from i ws s !! k1 = Some (j, t1) →
  occ_from i ws s !! k2 = Some (j, t2) →
  k1 = k2.
Proof.
  intros H1 H2. destruct (Nat.lt_trichotomy k1 k2) as [Hlt|[Heq|Hgt]].
  - pose proof (occ_from_increasing _ _ _ _ _ _ _ _ _ Hlt H1 H2). lia.
  - done.
  - pose proof (occ_from_increasing _ _ _ _ _ _ _ _ _ Hgt H2 H1). lia.
Qed.

Lemma occ_from_texts (ws : list BSBWord) (i : nat) (s : option (list N)) :
  snd <$> occ_from i ws s = english_occurrences ws s.
Proof.
  unfold english_occurrences. revert i.
  induction ws as [|[t' s'] ws IH]; intros i; [done|]. simpl.
  rewrite filter_cons. simpl.
  destruct (decide (s' = s)); simpl; by rewrite IH.
Qed.

Lemma head_filter_threshold {A : Type} (P : A → Prop)
    `{!∀ x, Decision (P x)} (l : list A) (c : nat) :
  (∀ k x, l !! k = Some x → P x ↔ (c ≤ k)%nat) →
  head (filter P l) = l !! c.
Proof.
  revert c. induction l as [|x l IH]; intros c Hthr; [done|].
  rewrite filter_cons. destruct c as [|c].
  - rewrite decide_True; [done|]. apply (Hthr 0%nat x); [done|lia].
  - rewrite decide_False.
    + simpl. apply IH. intros k y Hk.
      rewrite (Hthr (S k) y Hk). lia.
    + intros HP. apply (Hthr 0%nat x) in HP; [lia|done].
Qed.

Lemma consumed_prefix_find (w : list BSBWord) (used : gset nat)
    (cnt : option (list N) → nat) (s : option (list N)) :
  consumed_prefix w used cnt →
  find_english w 0 s used =
  (λ jt : nat * list N, (jt.1, cleanText jt.2))
    <$> (occ_from 0 w s !! cnt s).
Proof.
  intros Hinv. rewrite find_english_occ. f_equal.
  apply head_filter_threshold. intros k [j t] Hk. simpl.
  rewrite (Hinv s k j t Hk). lia.
Qed.

Lemma consumed_prefix_step (w : list BSBWord) (used : gset nat)
    (cnt : option (list N) → nat) (s : option (list N)) :
  consumed_prefix w used cnt →
  consumed_prefix w
    (match occ_from 0 w s !! cnt s with
     | Some (i, _) => used ∪ {[ i ]}
     | None => used
     end)
    (λ s', if decide (s' = s) then S (cnt s') else cnt s').
Proof.
  intros Hinv s' k j t Hk.
  destruct (occ_from 0 w s !! cnt s) as [[i0 t0]|] eqn:E.
  - rewrite elem_of_union, elem_of_singleton, (Hinv s' k j t Hk).
    destruct (decide (s' = s)) as [->|Hne].
    + split.
      * intros [Hlt | ->]; [lia|].
        rewrite (occ_from_index_inj _ _ _ _ _ _ _ _ Hk E). lia.
      * intros Hlt. destruct (decide (k = cnt s)) as [->|Hne]; [|left; lia].
        right. rewrite E in Hk. by injection Hk.
    + split; [|by left]. intros [Hlt | ->]; [done|].
      apply occ_from_lookup in Hk as [_ Hk], E as [_ E].
      rewrite E in Hk. by injection Hk as _ ->.
  - rewrite (Hinv s' k j t Hk).
    destruct (decide (s' = s)) as [->|Hne]; [|done].
    apply lookup_ge_None in E. apply lookup_lt_Some in Hk. lia.
Qed.

Lemma occurrences_before_cons (x : BSBWord) (l : list BSBWord)
    (s : option (list N)) (n : nat) :
  occurrences_before (x :: l) s (S n) =
  ((if decide (x.2 = s) then 1 else 0) + occurrences_before l s n)%nat.
Proof.
  unfold occurrences_before. simpl. rewrite filter_cons.
  by destruct (decide (x.2 = s)).
Qed.

Lemma original_order_kth (w : list BSBWord) (l : list BSBWord)
    (used : gset nat) (cnt : option (list N) → nat) (n : nat)
    (o : list N) (s : option (list N)) :
  consumed_prefix w used cnt →
  l !! n = Some (o, s) →
  (map_state (original_order_step w) used l).2 !! n =
  Some (mkPair o (kth_english w s (cnt s + occurrences_before l s n)) s).
Proof.
  revert used cnt n. induction l as [|[o' s'] l IH]; intros used cnt n Hinv;
    [done|].
  pose proof (consumed_prefix_step w used cnt s' Hinv) as Hstep.
  simpl. rewrite (consumed_prefix_find w used cnt s' Hinv).
  destruct n as [|n].
  - intros [= -> ->]. unfold occurrences_before, kth_english. simpl.
    rewrite Nat.add_0_r, <- (occ_from_texts w 0 s), list_lookup_fmap.
    destruct (occ_from 0 w s !! cnt s) as [[i t]|]; simpl.
    + by destruct (map_state _ _ l).
    + by destruct (map_state _ _ l).
  - intros Hn. rewrite occurrences_before_cons. simpl.
    destruct (occ_from 0 w s' !! cnt s') as [[i t]|]; simpl.
    + specialize (IH _ _ n Hstep Hn).
      destruct (map_state _ (used ∪ {[i]}) l) as [st2 ys]. simpl in *.
      rewrite IH. do 3 f_equal. destruct (decide (s = s')), (decide (s' = s));
        try done; try congruence; lia.
    + specialize (IH _ _ n Hstep Hn).
      destruct (map_state _ used l) as [st2 ys]. simpl in *.
      rewrite IH. do 3 f_equal. destruct (decide (s = s')), (decide (s' = s));
        try done; try congruence; lia.
Qed.

Lemma consumed_prefix_empty (w : list BSBWord) :
  consumed_prefix w ∅ (λ _, 0%nat).
Proof. intros s k j t _. rewrite elem_of_empty. lia. Qed.

(** C1. With a non-empty original-language array, original-language order
    emits one triple per original entry that has a Strong's number and is
    not pure punctuation, in the order of the original array. Each triple is
    bound to the first English entry, from the left, with the same Strong's
    number that no earlier triple consumed, and takes its cleaned text, or
    the empty string when there is none. Hence the k-th surviving original
    occurrence of a Strong's number is bound to its k-th English occurrence:
    two original occurrences never share an English one. *)
Theorem original_order_alignment (verse : BSBVerse) :
  originalWords verse ≠ [] →
  wf_strongs (originalWords verse) →
  aligned (verse_w verse) ∅ (original_survivors (originalWords verse))
          (wordPairs true verse)
  ∧ ∀ n o s,
      original_survivors (originalWords verse) !! n = Some (o, s) →
      wordPairs true verse !! n =
      Some (mkPair o
              (kth_english (verse_w verse) s
                 (occurrences_before
                    (original_survivors (originalWords verse)) s n))
              s).
Proof.
  intros Hne Hwf.
  assert (wordPairs true verse =
          (map_state (original_order_step (verse_w verse)) ∅
             (original_survivors (originalWords verse))).2) as ->.
  { unfold wordPairs, original_order_pairs.
    destruct (originalWords verse) as [|x l] eqn:E; [done|]. simpl Nat.ltb.
    cbn [andb]. by rewrite (original_filter_survivors _ Hwf). }
  split; [apply original_order_aligned|].
  intros n o s Hn.
  by rewrite (original_order_kth _ _ _ _ _ _ _
                (consumed_prefix_empty (verse_w verse)) Hn).
Qed.

Lemma original_order_alignment_witness :
  aligned (verse_w verse_repeat) ∅
          (original_survivors (originalWords verse_repeat))
          (wordPairs true verse_repeat)
  ∧ wordPairs true verse_repeat =
    [ mkPair [1511; 1491] (str "holy") (Some (str "H6918"));
      mkPair [1511; 1491; 1513] (str "holy") (Some (str "H6918")) ].
Proof.
  split; [|by vm_compute].
  refine (proj1 (original_order_alignment verse_repeat _ _)).
  - done.
  - unfold wf_strongs. simpl. Forall_by_evaluation.
Defined.

(** The relation [aligned] determines the output. *)
Lemma first_unconsumed_unique (w : list BSBWord) (used : gset nat)
    (s : option (list N)) (i j : nat) :
  first_unconsumed w used s i → first_unconsumed w used s j → i = j.
Proof.
  intros ([ti Hi] & Hui & Hmi) ([tj Hj] & Huj & Hmj).
  destruct (Nat.lt_trichotomy i j) as [Hlt|[Heq|Hgt]]; [|done|].
  - destruct Hui. by apply (Hmj i ti).
  - destruct Huj. by apply (Hmi j tj).
Qed.

Lemma aligned_functional (w : list BSBWord) (used : gset nat)
    (l : list BSBWord) (out1 out2 : list WordPair) :
  aligned w used l out1 → aligned w used l out2 → out1 = out2.
Proof.
  intros H1. revert out2.
  induction H1 as [used|used o s i t rest out Hi Hf _ IH
                  |used o s rest out Hnone _ IH]; intros out2 H2.
  - by inversion H2.
  - inversion H2 as [|? ? ? i' t' ? out' Hi' Hf' Hrest
                    |? ? ? ? out' Hnone' Hrest]; subst.
    + assert (i' = i) as -> by by eapply first_unconsumed_unique.
      rewrite Hi in Hi'. injection Hi' as ->. f_equal. by apply IH.
    + destruct Hf as (_ & Hu & _). destruct Hu. by apply (Hnone' i t).
  - inversion H2 as [|? ? ? i' t' ? out' Hi' Hf' Hrest
                    |? ? ? ? out' Hnone' Hrest]; subst.
    + destruct Hf' as (_ & Hu & _). destruct Hu. by apply (Hnone i' t').
    + f_equal. by apply IH.
Qed.

(** ** Sorting *)

Section Sort.
Context {A : Type} (comparefn : A → A → number).

Lemma sort_insert_Permutation (x : A) (l : list A) :
  sort_insert comparefn x l ≡ₚ x :: l.
Proof.
  induction l as [|y l IH]; simpl; [done|].
  destruct (cmp_le comparefn x y); [done|].
  rewrite IH. apply Permutation_swap.
Qed.

Lemma sort_Permutation (l : list A) : sort comparefn l ≡ₚ l.
Proof.
  induction l as [|x l IH]; simpl; [done|].
  by rewrite sort_insert_Permutation, IH.
Qed.

Lemma elem_of_sort (x : A) (l : list A) : x ∈ sort comparefn l ↔ x ∈ l.
Proof. by rewrite sort_Permutation. Qed.

(** On a set [P] of elements where the comparator is consistent (the order
    it induces is total and transitive), the result is sorted. *)
Context (P : A → Prop) (R : A → A → Prop).
Hypothesis cmp_R : ∀ x y, P x → P y → cmp_le comparefn x y = true ↔ R x y.
Hypothesis R_total : ∀ x y, P x → P y → R x y ∨ R y x.
Hypothesis R_trans : ∀ x y z, P x → P y → P z → R x y → R y z → R x z.

Lemma sort_insert_sorted (x : A) (l : list A) :
  P x → Forall P l → StronglySorted R l →
  StronglySorted R (sort_insert comparefn x l).
Proof.
  intros Hx HP Hs. induction Hs as [|y l Hs IH Hy]; simpl.
  - repeat constructor.
  - apply Forall_cons in HP as [HPy HPl].
    destruct (cmp_le comparefn x y) eqn:E.
    + apply (cmp_R x y Hx HPy) in E.
      constructor; [by constructor|].
      constructor; [done|].
      rewrite Forall_forall in Hy, HPl. apply Forall_forall.
      intros z Hz. apply (R_trans x y z); auto.
    + constructor; [by apply IH|].
      rewrite sort_insert_Permutation. constructor; [|done].
      destruct (R_total x y Hx HPy) as [Hxy|Hyx]; [|done].
      apply (cmp_R x y Hx HPy) in Hxy. congruence.
Qed.

Lemma sort_sorted (l : list A) :
  Forall P l → StronglySorted R (sort comparefn l).
Proof.
  induction 1 as [|x l Hx HP IH]; simpl; [constructor|].
  apply sort_insert_sorted; [done| |done].
  by rewrite sort_Permutation.
Qed.
End Sort.


(** ** Concordance search on the pre-built map *)

Lemma lookup_or_zero_int (x : option number) :
  ∃ z, lookup_or x (Int 0) = Int z.
Proof.
  destruct x as [[|z]|]; simpl; try by eexists.
  destruct (z =? 0)%Z; by eexists.
Qed.

Lemma searchConcordance_unfold (toUpperCase : list N → list N)
    (concordance : gmap (list N) (list (list N))) (sn : list N) :
  DataApi.searchConcordance toUpperCase (Some concordance) sn =
  sort DataApi.compare_results
       (DataApi.parse_ref <$> default [] (concordance !! toUpperCase sn)).
Proof.
  unfold DataApi.searchConcordance.
  by destruct (concordance !! toUpperCase sn) as [[|ref refs]|].
Qed.

Lemma object_get_plain (o : gmap (list N) number) (k : list N) :
  k ∉ Object_prototype_members → object_get o k = Num <$> o !! k.
Proof.
  intros Hk. unfold object_get. destruct (o !! k); [reflexivity|].
  by rewrite bool_decide_eq_false_2.
Qed.

Lemma value_or_plain (x : option number) (d : number) :
  value_or (Num <$> x) d = Num (lookup_or x d).
Proof.
  destruct x as [[|z]|]; try reflexivity.
  cbn. by destruct (z =? 0)%Z.
Qed.

Lemma parse_ref_eq (ref : list N) :
  DataApi.parse_ref ref =
  DataApi.mkResult ref (split_on 46 ref !! 0%nat)
    (value_or (split_on 46 ref !! 0%nat ≫= object_get BOOK_NUMBERS) (Int 0))
    (parseInt (split_on 46 ref !! 1%nat))
    (parseInt (split_on 46 ref !! 2%nat)).
Proof. reflexivity. Qed.

Lemma parse_ref_valid (ref : list N) :
  valid_ref ref = true →
  ∃ b c v, result_key (DataApi.parse_ref ref) = (Int b, Int c, Int v).
Proof.
  unfold valid_ref, result_key. rewrite parse_ref_eq.
  cbn [DataApi.bookNumber DataApi.chapter DataApi.verse].
  intros H.
  destruct (split_on 46 ref) as [|code [|c [|v rest]]];
    try discriminate H.
  apply andb_true_iff in H as [H Hv].
  apply andb_true_iff in H as [Hcode Hc].
  apply negb_true_iff, bool_decide_eq_false in Hcode.
  change ((code :: c :: v :: rest) !! 0%nat) with (Some code).
  change ((code :: c :: v :: rest) !! 1%nat) with (Some c).
  change ((code :: c :: v :: rest) !! 2%nat) with (Some v).
  change (Some code ≫= object_get BOOK_NUMBERS)
    with (object_get BOOK_NUMBERS code).
  rewrite (object_get_plain _ _ Hcode), value_or_plain.
  destruct (lookup_or_zero_int (BOOK_NUMBERS !! code)) as [b ->].
  destruct (parseInt (Some c)) as [|cz]; [discriminate Hc|].
  destruct (parseInt (Some v)) as [|vz]; [discriminate Hv|].
  exists b, cz, vz. reflexivity.
Qed.

Lemma compare_results_lex (a b : DataApi.ConcordanceResult) :
  (∃ x y z, result_key a = (Int x, Int y, Int z)) →
  (∃ x y z, result_key b = (Int x, Int y, Int z)) →
  cmp_le DataApi.compare_results a b = true
  ↔ lex_le (result_key a) (result_key b).
Proof.
  unfold cmp_le, DataApi.compare_results, result_key.
  intros (a1 & a2 & a3 & [= -> -> ->]) (b1 & b2 & b3 & [= -> -> ->]). simpl.
  destruct (a1 - b1 =? 0)%Z eqn:E1; simpl.
  - apply Z.eqb_eq in E1.
    destruct (a2 - b2 =? 0)%Z eqn:E2; simpl.
    + apply Z.eqb_eq in E2. rewrite Z.leb_le. lia.
    + rewrite ?E2. apply Z.eqb_neq in E2. rewrite Z.leb_le. lia.
  - rewrite ?E1. apply Z.eqb_neq in E1. rewrite Z.leb_le. lia.
Qed.

Lemma lex_le_total (a b : number * number * number) :
  (∃ x y z, a = (Int x, Int y, Int z)) →
  (∃ x y z, b = (Int x, Int y, Int z)) →
  lex_le a b ∨ lex_le b a.
Proof. intros (?&?&?&->) (?&?&?&->). simpl. lia. Qed.

Lemma lex_le_trans (a b c : number * number * number) :
  lex_le a b → lex_le b c → lex_le a c.
Proof.
  destruct a as [[[|a1] [|a2]] [|a3]], b as [[[|b1] [|b2]] [|b3]],
           c as [[[|c1] [|c2]] [|c3]]; simpl; try done. lia.
Qed.

Lemma searchConcordance_StronglySorted (toUpperCase : list N → list N)
    (concordance : gmap (list N) (list (list N))) (sn : list N) :
  Forall (λ ref, valid_ref ref = true)
         (default [] (concordance !! toUpperCase sn)) →
  StronglySorted (λ a b, lex_le (result_key a) (result_key b))
    (DataApi.searchConcordance toUpperCase (Some concordance) sn).
Proof.
  intros Hvalid. rewrite searchConcordance_unfold.
  apply (sort_sorted _
           (λ r, ∃ x y z, result_key r = (Int x, Int y, Int z))).
  - apply compare_results_lex.
  - intros x y Hx Hy. by apply lex_le_total.
  - intros x y z _ _ _. apply lex_le_trans.
  - apply Forall_fmap. eapply Forall_impl; [done|].
    intros ref. apply parse_ref_valid.
Qed.

(** C7. Whatever the order of the references stored under the (upper-cased)
    Strong's key, provided each is a well-formed verse reference, the result
    is a rearrangement of the parsed references that is non-decreasing in
    (bookNumber, chapter, verse); an absent key gives the empty list. *)
Theorem searchConcordance_sorted (toUpperCase : list N → list N)
    (concordance : gmap (list N) (list (list N))) (sn : list N) :
  (∀ refs, concordance !! toUpperCase sn = Some refs →
           Forall (λ ref, valid_ref ref = true) refs) →
  StronglySorted (λ a b, lex_le (result_key a) (result_key b))
    (DataApi.searchConcordance toUpperCase (Some concordance) sn)
  ∧ DataApi.searchConcordance toUpperCase (Some concordance) sn
    ≡ₚ DataApi.parse_ref <$> default [] (concordance !! toUpperCase sn)
  ∧ (concordance !! toUpperCase sn = None →
     DataApi.searchConcordance toUpperCase (Some concordance) sn = []).
Proof.
  intros Hvalid. split; [|split].
  - apply searchConcordance_StronglySorted.
    destruct (concordance !! toUpperCase sn) as [refs|] eqn:E; simpl.
    + by apply Hvalid.
    + constructor.
  - rewrite searchConcordance_unfold. apply sort_Permutation.
  - intros E. by rewrite searchConcordance_unfold, E.
Qed.

Lemma searchConcordance_sorted_witness :
  StronglySorted (λ a b, lex_le (result_key a) (result_key b))
    (DataApi.searchConcordance ascii_upper (Some sample_concordance)
                               (str "h0001"))
  ∧ DataApi.searchConcordance ascii_upper (Some sample_concordance)
                              (str "h0001")
    = DataApi.parse_ref <$> [ str "GEN.1.5"; str "GEN.2.3"; str "EXO.1.1" ].
Proof.
  split; [|by vm_compute].
  refine (proj1 (searchConcordance_sorted ascii_upper sample_concordance
                   (str "h0001") _)).
  intros refs Hrefs.
  assert (sample_concordance !! ascii_upper (str "h0001") = Some sample_refs)
    as E by (by vm_compute).
  rewrite E in Hrefs. injection Hrefs as <-.
  Forall_by_evaluation.
Defined.

(** ** Book tables *)




Lemma BOOK_ALIASES_values :
  map_Forall (λ _ c, c ∈ canonical_codes ∧ c ≠ []
                     ∧ canonical_number (BOOK_NUMBERS !! c) = true)
             BOOK_ALIASES.
Proof. apply (bool_decide_unpack _). by vm_compute. Qed.

Lemma BOOK_ALIASES_canonical :
  Forall (λ c, BOOK_ALIASES !! c = Some c) canonical_codes.
Proof. apply (bool_decide_unpack _). by vm_compute. Qed.

(** ** Book numbers *)

Lemma getBookNumber_unresolved (toUpperCase : list N → list N)
    (bookCode : list N) :
  ¬ resolves toUpperCase bookCode →
  DataApi.getBookNumber toUpperCase bookCode = Int 0.
Proof.
  intros Hnot. unfold DataApi.getBookNumber, DataApi.normalizeBookCode.
  destruct bookCode as [|c0 t0]; [done|].
  destruct (BOOK_ALIASES !! toUpperCase (c0 :: t0)) as [[|c t]|] eqn:E;
    try done.
  destruct Hnot. split; [done|]. right. exists (c :: t). split; [done|].
  by destruct (BOOK_ALIASES_values _ _ E) as [? _].
Qed.

Lemma getBookNumber_resolved (toUpperCase : list N → list N)
    (bookCode : list N) :
  resolves toUpperCase bookCode →
  ∃ n, DataApi.getBookNumber toUpperCase bookCode = Int n
       ∧ (1 ≤ n ≤ 66)%Z.
Proof.
  intros [Hne Hres].
  assert (∃ c, BOOK_ALIASES !! toUpperCase bookCode = Some c) as [c E].
  { destruct Hres as [Hin | (c & E & _)]; [|by exists c].
    exists (toUpperCase bookCode).
    pose proof BOOK_ALIASES_canonical as Hall.
    rewrite Forall_forall in Hall. by apply Hall. }
  destruct (BOOK_ALIASES_values _ _ E) as (_ & Hc & Hnum).
  unfold DataApi.getBookNumber, DataApi.normalizeBookCode.
  destruct bookCode as [|c0 t0]; [done|]. rewrite E.
  destruct c as [|c1 t1]; [done|].
  destruct (BOOK_NUMBERS !! (c1 :: t1)) as [[|n]|]; try discriminate Hnum.
  unfold canonical_number in Hnum.
  apply andb_true_iff in Hnum as [H1 H2].
  apply Z.leb_le in H1, H2. exists n. split; [|lia].
  unfold lookup_or, num_or.
  destruct (n =? 0)%Z eqn:E0; [|done]. apply Z.eqb_eq in E0. lia.
Qed.

(** C8. The older data module answers 1, the number of Genesis, for a book
    code that resolves to nothing, where the current module answers the
    sentinel 0. *)
Theorem legacy_getBookNumber_defaults_to_genesis :
  ¬ resolves ascii_upper (str "XYZ")
  ∧ IndexScan.getBookNumber (str "XYZ") = Int 1
  ∧ IndexScan.getBookNumber (str "XYZ") = IndexScan.getBookNumber (str "GEN")
  ∧ DataApi.getBookNumber ascii_upper (str "XYZ") = Int 0.
Proof.
  assert (¬ resolves ascii_upper (str "XYZ")) as Hnot.
  { intros [_ [Hin | (c & E & _)]].
    - by apply (bool_decide_pack _) in Hin.
    - by vm_compute in E. }
  split; [done|]. split; [by vm_compute|]. split; [by vm_compute|].
  by apply getBookNumber_unresolved.
Qed.

(** ** Concordance search: references with an unknown book code *)

Lemma split_on_cons (sep : N) (s : list N) :
  ∃ h t, split_on sep s = h :: t.
Proof.
  induction s as [|c s (h & t & IH)]; simpl; [by eexists _, _|].
  destruct (c =? sep); [by eexists _, _|]. rewrite IH. by eexists _, _.
Qed.





(** ** Concordance search: testament consistency *)

Lemma BOOK_CODES_numbers :
  Forall (λ kc : N * list N,
            BOOK_NUMBERS !! kc.2 = Some (Int (Z.of_N kc.1))
            ∧ (1 ≤ kc.1 ≤ 66)%N)
         BOOK_CODES.
Proof. apply (bool_decide_unpack _). by vm_compute. Qed.

Lemma parse_ref_canonical (ref : list N) (n : N) :
  (n, book_code_of ref) ∈ BOOK_CODES →
  DataApi.bookNumber (DataApi.parse_ref ref) = Int (Z.of_N n).
Proof.
  intros Hin. pose proof BOOK_CODES_numbers as Hall.
  rewrite Forall_forall in Hall. destruct (Hall _ Hin) as [Hnum Hrange].
  cbn [fst snd] in Hnum, Hrange. revert Hnum.
  unfold book_code_of. rewrite parse_ref_eq. cbn [DataApi.bookNumber].
  destruct (split_on_cons 46 ref) as (h & t & ->).
  change ((h :: t) !! 0%nat) with (Some h).
  change (default [] (Some h)) with h.
  change (Some h ≫= object_get BOOK_NUMBERS)
    with (object_get BOOK_NUMBERS h).
  intros Hnum. unfold object_get. rewrite Hnum. cbn [value_or].
  destruct (Z.of_N n =? 0)%Z eqn:E; [|reflexivity].
  apply Z.eqb_eq in E. lia.
Qed.

Lemma scan_step_testament (normalized : list N) (isHebrew : bool)
    (results : list IndexScan.ConcordanceResult)
    (entry : IndexScan.BSBIndexEntry) :
  let Q := λ r : IndexScan.ConcordanceResult,
    isHebrew = num_geb (to_number (IndexScan.bookNumber r)) 1
               && num_leb (to_number (IndexScan.bookNumber r)) 39 in
  Forall Q results →
  Forall Q (IndexScan.scan_step normalized isHebrew results entry).
Proof.
  intros Q Hres. unfold IndexScan.scan_step.
  destruct (negb (eqb isHebrew _)) eqn:E; [done|].
  destruct (match IndexScan.s entry with
            | Some l => bool_decide (normalized ∈ l)
            | None => false
            end); [|done].
  apply Forall_app. split; [done|]. apply Forall_singleton.
  apply negb_false_iff in E. by apply eqb_prop in E.
Qed.

Lemma scan_testament (normalized : list N) (isHebrew : bool)
    (entries : list IndexScan.BSBIndexEntry)
    (results : list IndexScan.ConcordanceResult) :
  let Q := λ r : IndexScan.ConcordanceResult,
    isHebrew = num_geb (to_number (IndexScan.bookNumber r)) 1
               && num_leb (to_number (IndexScan.bookNumber r)) 39 in
  Forall Q results →
  Forall Q (foldl (IndexScan.scan_step normalized isHebrew) results entries).
Proof.
  intros Q. revert results.
  induction entries as [|entry entries IH]; intros results Hres; [done|].
  cbn [foldl]. apply IH. by apply scan_step_testament.
Qed.

Lemma old_testament_number_spec (x : value) :
  (num_geb (to_number x) 1 && num_leb (to_number x) 39) = true
  ↔ old_testament_number x.
Proof.
  unfold old_testament_number. split.
  - destruct x as [[|n]|name]; try discriminate. cbn.
    intros [H1 H2]%andb_true_iff. apply Z.leb_le in H1, H2. by exists n.
  - intros (n & -> & Hn). cbn. apply andb_true_iff.
    split; apply Z.leb_le; lia.
Qed.

Lemma startsWith_G_not_H (s : list N) :
  startsWith s 71 = true → startsWith s 72 = false.
Proof.
  unfold startsWith. destruct s as [|c0 t0]; [done|].
  intros ->%N.eqb_eq. reflexivity.
Qed.

(** C6. The data keeping the testament invariant, a search for a number
    whose upper case starts with H returns only results with a book number
    from 1 to 39, and a search for a number that starts with G returns no
    result with such a book number, both on the pre-built map and by the
    scan of the index. The scan needs no invariant: it tests the testament
    of each verse itself. *)
Theorem testament_consistency (toUpperCase : list N → list N)
    (sn : list N) (concordance : gmap (list N) (list (list N)))
    (indexCache : list (list N * IndexScan.BSBIndexEntry)) :
  testament_invariant concordance →
  (startsWith (toUpperCase sn) 72 = true →
   (∀ r, r ∈ DataApi.searchConcordance toUpperCase (Some concordance) sn →
         old_testament_number (DataApi.bookNumber r))
   ∧ (∀ r, r ∈ IndexScan.searchConcordance toUpperCase indexCache sn →
           old_testament_number (IndexScan.bookNumber r)))
  ∧ (startsWith (toUpperCase sn) 71 = true →
     (∀ r, r ∈ DataApi.searchConcordance toUpperCase (Some concordance) sn →
           ¬ old_testament_number (DataApi.bookNumber r))
     ∧ (∀ r, r ∈ IndexScan.searchConcordance toUpperCase indexCache sn →
             ¬ old_testament_number (IndexScan.bookNumber r))).
Proof.
  intros Hinv.
  assert (∀ r, r ∈ DataApi.searchConcordance toUpperCase (Some concordance)
                     sn →
               ∃ refs ref, concordance !! toUpperCase sn = Some refs
                           ∧ ref ∈ refs ∧ r = DataApi.parse_ref ref)
    as Hmap.
  { intros r. rewrite searchConcordance_unfold, elem_of_sort,
      list_elem_of_fmap.
    intros (ref & -> & Hin).
    destruct (concordance !! toUpperCase sn) as [refs|]; simpl in Hin.
    - by exists refs, ref.
    - by apply elem_of_nil in Hin. }
  assert (∀ r, r ∈ IndexScan.searchConcordance toUpperCase indexCache sn →
               startsWith (toUpperCase sn) 72
               = num_geb (to_number (IndexScan.bookNumber r)) 1
                 && num_leb (to_number (IndexScan.bookNumber r)) 39)
    as Hscan.
  { intros r Hr. unfold IndexScan.searchConcordance in Hr.
    apply elem_of_sort in Hr.
    pose proof (scan_testament (toUpperCase sn)
                  (startsWith (toUpperCase sn) 72)
                  (List.map snd indexCache) [] (Forall_nil_2 _)) as Hall.
    rewrite Forall_forall in Hall. by apply Hall. }
  split.
  - intros HH. split.
    + intros r (refs & ref & Hrefs & Hin & ->)%Hmap.
      destruct (proj1 (Hinv _ _ _ Hrefs Hin) HH) as (n & Hn & Hrange).
      exists (Z.of_N n). split; [by apply parse_ref_canonical|lia].
    + intros r Hr%Hscan. rewrite HH in Hr.
      by apply old_testament_number_spec.
  - intros HG. split.
    + intros r (refs & ref & Hrefs & Hin & ->)%Hmap (m & Hm & Hrange).
      destruct (proj2 (Hinv _ _ _ Hrefs Hin) HG) as (n & Hn & Hrange').
      rewrite (parse_ref_canonical _ _ Hn) in Hm. injection Hm as <-. lia.
    + intros r Hr%Hscan Hot%old_testament_number_spec.
      rewrite (startsWith_G_not_H _ HG), Hot in Hr. discriminate Hr.
Qed.

Lemma testament_consistency_witness :
  (∀ r, r ∈ DataApi.searchConcordance ascii_upper (Some sample_concordance)
              (str "h0001") →
        old_testament_number (DataApi.bookNumber r))
  ∧ (∀ r, r ∈ IndexScan.searchConcordance ascii_upper sample_index
                (str "h0001") →
          old_testament_number (IndexScan.bookNumber r)).
Proof.
  refine (proj1 (testament_consistency ascii_upper (str "h0001")
                   sample_concordance sample_index _) _);
    [|by vm_compute].
  intros key refs ref Hkey Hin. unfold sample_concordance in Hkey.
  apply lookup_singleton_Some in Hkey as [<- <-].
  split; [intros _|intros HG; by vm_compute in HG].
  unfold sample_refs in Hin.
  rewrite !elem_of_cons, elem_of_nil in Hin.
  destruct Hin as [->|[->|[->|[]]]].
  - exists 1. split; [apply (bool_decide_unpack _); by vm_compute|lia].
  - exists 2. split; [apply (bool_decide_unpack _); by vm_compute|lia].
  - exists 1. split; [apply (bool_decide_unpack _); by vm_compute|lia].
Defined.

(** The invariant is a property of the data: the search on the pre-built
    map applies no filter of its own, so a reference to Matthew stored under
    a Hebrew key comes back with book number 40. *)
Lemma hebrew_key_returns_matthew :
  startsWith (ascii_upper (str "H0001")) 72 = true
  ∧ ∃ r, r ∈ DataApi.searchConcordance ascii_upper (Some mixed_concordance)
               (str "H0001")
         ∧ DataApi.bookNumber r = Int 40.
Proof.
  split; [by vm_compute|].
  exists (DataApi.parse_ref (str "MAT.1.1")). split; [|by vm_compute].
  rewrite searchConcordance_unfold, elem_of_sort.
  assert (mixed_concordance !! ascii_upper (str "H0001")
          = Some [ str "MAT.1.1"; str "GEN.2.3"; str "XYZ.4.5" ]) as ->
    by (by vm_compute).
  apply list_elem_of_fmap_2. left.
Qed.


(** * Further properties *)

(** ** Text classifier *)

Lemma punct_class_spec (c : N) :
  punct_class c = true ↔ is_ws c = true ∨ c ∈ punctuation_marks.
Proof.
  unfold punct_class.
  change punctuation_marks
    with [46; 44; 59; 58; 33; 63; 39; 40; 41; 91; 93; 45; 34; 8212; 8211;
          1475; 1472].
  rewrite !orb_true_iff, !N.eqb_eq, !elem_of_cons, elem_of_nil. tauto.
Qed.

(** X1. A text is punctuation exactly when it is not empty and each of its
    code units is white space or one of the punctuation marks of the class;
    so the empty string is not punctuation, and white space around the marks
    does not matter. *)
Theorem isPunctuation_spec (text : list N) :
  isPunctuation text = true ↔
  text ≠ [] ∧ Forall (λ c, is_ws c = true ∨ c ∈ punctuation_marks) text.
Proof.
  rewrite test_PUNCTUATION_REGEX.
  by rewrite (forallb_Forall_iff _ _ _ punct_class_spec).
Qed.

Lemma trimStart_decompose (s : list N) :
  ∃ a, s = a ++ trimStart s ∧ spaces a.
Proof.
  induction s as [|c s (a & IH1 & IH2)]; simpl.
  - exists []. split; [done|constructor].
  - destruct (is_ws c) eqn:E.
    + exists (c :: a). split; [by rewrite IH1 at 1|by constructor].
    + exists []. split; [done|constructor].
Qed.

Lemma trim_decompose (s : list N) :
  ∃ a b, s = a ++ trim s ++ b ∧ spaces a ∧ spaces b.
Proof.
  destruct (trimStart_decompose s) as (a & Ha & Hsa).
  destruct (trimStart_decompose (rev (trimStart s))) as (b & Hb & Hsb).
  exists a, (rev b). unfold trim. split; [|split; [done|]].
  - rewrite <- rev_app_distr, <- Hb, rev_involutive. exact Ha.
  - unfold spaces in *. rewrite Forall_forall in Hsb. apply Forall_forall.
    intros c Hc. apply Hsb. apply list_elem_of_In. apply list_elem_of_In in Hc.
    by apply in_rev.
Qed.

Lemma skip_marker_punctuation (t : list N) :
  skip_marker t → t = str "vvv" ∨ (t ≠ [] ∧ Forall (λ c, punct_class c = true) t).
Proof.
  intros [[Hne Hd] | [(d1 & s1 & d2 & s2 & d3 & -> & H1 & Hs1 & H2 & Hs2 & H3)
                     | ->]]; [right|right|by left].
  - split; [done|]. eapply Forall_impl; [done|]. intros c Hc. simpl in Hc.
    apply punct_class_spec. right. unfold punctuation_marks.
    change (str ".,;:!?'()[]-")
      with [46; 44; 59; 58; 33; 63; 39; 40; 41; 91; 93; 45].
    rewrite !elem_of_cons, elem_of_nil in Hc.
    rewrite elem_of_app, !elem_of_cons, !elem_of_nil. tauto.
  - destruct H1 as [Hn1 H1], H2 as [_ H2], H3 as [_ H3]. split.
    + by destruct d1.
    + assert (∀ d, Forall (λ c, c = 46) d →
                   Forall (λ c, punct_class c = true) d) as Hdot.
      { intros d Hd. eapply Forall_impl; [exact Hd|]. by intros c ->. }
      assert (∀ sp, spaces sp → Forall (λ c, punct_class c = true) sp)
        as Hsp.
      { intros sp Hsp. eapply Forall_impl; [exact Hsp|]. intros c Hc.
        apply punct_class_spec. by left. }
      rewrite !Forall_app. auto 10.
Qed.

(** X2. A word that is a skip marker is pure punctuation, unless its trimmed
    text is the filler token vvv. Hence the skip-marker test of the
    English-order filter removes nothing but vvv tokens: the filter keeps the
    words with a Strong's number that are not punctuation and whose trimmed
    text is not vvv. *)
Theorem skip_marker_is_punctuation_or_filler (text : list N)
    (strongs : option (list N)) :
  (shouldSkipWord text strongs = true →
   isPunctuation text = true ∨ trim text = str "vvv")
  ∧ english_filter (text, strongs) =
    truthy strongs && negb (isPunctuation text)
    && negb (bool_decide (trim text = str "vvv")).
Proof.
  assert (test SKIP_MARKERS_REGEX (trim text) = true →
          isPunctuation text = true ∨ trim text = str "vvv") as Hskip.
  { intros H. apply test_SKIP_MARKERS_REGEX, skip_marker_punctuation in H.
    destruct H as [H | [Hne Hall]]; [by right|left].
    destruct (trim_decompose text) as (a & b & Heq & Ha & Hb).
    apply test_PUNCTUATION_REGEX. split.
    - intros ->. symmetry in Heq.
      apply app_eq_nil in Heq as [_ Heq]. by apply app_eq_nil in Heq as [? _].
    - apply (forallb_Forall_iff _ (λ c, punct_class c = true)); [done|].
      rewrite Heq, !Forall_app. split; [|split; [done|]].
      + eapply Forall_impl; [exact Ha|]. intros c Hc.
        apply punct_class_spec. by left.
      + eapply Forall_impl; [exact Hb|]. intros c Hc.
        apply punct_class_spec. by left. }
  split.
  - unfold shouldSkipWord. intros [_ H]%andb_true_iff. by apply Hskip.
  - unfold english_filter, shouldSkipWord.
    destruct (truthy strongs); [|done]. cbn [andb].
    destruct (isPunctuation text) eqn:Ep; [done|]. cbn [andb negb].
    destruct (test SKIP_MARKERS_REGEX (trim text)) eqn:Et.
    + destruct (Hskip eq_refl) as [H|H]; [congruence|].
      by rewrite bool_decide_eq_true_2.
    + rewrite bool_decide_eq_false_2; [done|]. intros H.
      rewrite H in Et. by vm_compute in Et.
Qed.

(** ** Alignment engine: the triples that are shown *)

Lemma original_order_source (w : list BSBWord) (used : gset nat)
    (l : list BSBWord) (p : WordPair) :
  p ∈ (map_state (original_order_step w) used l).2 →
  (original p, strongs p) ∈ l.
Proof.
  revert used. induction l as [|[o s] l IH]; intros used; simpl.
  - by intros ?%elem_of_nil.
  - destruct (find_english w 0 s used) as [[i e]|] eqn:E.
    + destruct (map_state _ (used ∪ {[i]}) l) as [st2 ys] eqn:E2. simpl.
      intros [->|Hin]%elem_of_cons; [by left|].
      right. apply (IH (used ∪ {[i]})). by rewrite E2.
    + destruct (map_state _ used l) as [st2 ys] eqn:E2. simpl.
      intros [->|Hin]%elem_of_cons; [by left|].
      right. apply (IH used). by rewrite E2.
Qed.

Lemma cleanText_no_brackets (text : list N) :
  Forall (λ c, c ∉ str "[]{}") (cleanText text).
Proof.
  rewrite cleanText_filter. apply Forall_forall. intros c Hc.
  by apply list_elem_of_filter in Hc as [? _].
Qed.

(** X3. Every triple that is shown, in either order, carries a Strong's
    number that is a non-empty string (so pressing its card always opens an
    entry), and its english field contains no square bracket and no curly
    brace. *)
Theorem wordPairs_pressable (useHebrewWordOrder : bool) (verse : BSBVerse)
    (p : WordPair) :
  p ∈ wordPairs useHebrewWordOrder verse →
  truthy (strongs p) = true ∧ Forall (λ c, c ∉ str "[]{}") (english p).
Proof.
  unfold wordPairs.
  destruct (useHebrewWordOrder && _).
  - unfold original_order_pairs. intros Hp. split.
    + apply original_order_source in Hp.
      apply list_elem_of_In, filter_In in Hp as [_ Hf].
      unfold original_filter in Hf. by apply andb_true_iff in Hf as [? _].
    + apply original_order_drawn in Hp as [-> | (text & _ & ->)].
      * constructor.
      * apply cleanText_no_brackets.
  - unfold english_order_pairs. intros Hp.
    apply list_elem_of_In, in_map_iff in Hp as ([text s] & <- & Hin).
    apply filter_In in Hin as [_ Hf]. simpl. split.
    + unfold english_filter in Hf.
      apply andb_true_iff in Hf as [Hf _].
      by apply andb_true_iff in Hf as [? _].
    + apply cleanText_no_brackets.
Qed.

Lemma wordPairs_pressable_witness :
  truthy (Some (str "H6918")) = true
  ∧ Forall (λ c, c ∉ str "[]{}") (str "holy").
Proof.
  refine (wordPairs_pressable true verse_repeat
            (mkPair [1511; 1491; 1513] (str "holy") (Some (str "H6918"))) _).
  vm_compute. right. left.
Defined.

(** X4. The words that can be pressed in plain text mode are, in order and
    with the same cleaned text and Strong's number, the triples of the
    interlinear English order: both views select the same words of the
    verse. *)
Theorem text_mode_clickables_are_english_pairs (verse : BSBVerse) :
  clickables (text_mode verse) =
  (λ p, (english p, strongs p)) <$> wordPairs false verse.
Proof.
  rewrite (wordPairs_english_order false verse) by by left.
  unfold text_mode, english_order_pairs, clickables.
  generalize (build_originalWordMap (originalWords verse)) as m.
  intros m. induction (verse_w verse) as [|[text s] w IH]; [done|].
  cbn [List.map List.filter omap list_omap].
  unfold text_mode_word at 1. unfold english_filter at 1.
  destruct (shouldSkipWord text s).
  - rewrite andb_false_r. apply IH.
  - rewrite andb_true_r.
    destruct (truthy s); cbn [negb orb andb]; [|apply IH].
    destruct (isPunctuation text); cbn [negb]; [apply IH|].
    cbn [List.map fmap list_fmap]. f_equal. apply IH.
Qed.

(** ** Book codes and book numbers *)

Lemma BOOK_NUMBERS_inverse :
  map_Forall (λ c n, getBookCode n = Some c ∧ canonical_number (Some n) = true)
             BOOK_NUMBERS.
Proof. apply (bool_decide_unpack _). by vm_compute. Qed.

Lemma BOOK_CODES_inverse :
  Forall (λ kc : N * list N,
            BOOK_NUMBERS !! kc.2 = Some (Int (Z.of_N kc.1))
            ∧ kc.2 ≠ [] ∧ kc.2 ∈ canonical_codes)
         BOOK_CODES.
Proof. apply (bool_decide_unpack _). by vm_compute. Qed.

Lemma assoc_get_elem_of {V : Type} (k : N) (o : list (N * V)) (x : V) :
  assoc_get k o = Some x → (k, x) ∈ o.
Proof.
  induction o as [|[k' y] o IH]; simpl; [done|].
  destruct (k' =? k) eqn:E.
  - intros [= ->]. apply N.eqb_eq in E as ->. left.
  - intros H. right. by apply IH.
Qed.

Lemma resolves_or_not (toUpperCase : list N → list N) (bookCode : list N) :
  resolves toUpperCase bookCode ∨ ¬ resolves toUpperCase bookCode.
Proof.
  destruct bookCode as [|c0 t0]; [right; by intros [? _]|].
  destruct (BOOK_ALIASES !! toUpperCase (c0 :: t0)) as [c|] eqn:E.
  - left. split; [done|]. right. exists c. split; [done|].
    by destruct (BOOK_ALIASES_values _ _ E) as [? _].
  - right. intros [_ [Hin | (c & Hc & _)]]; [|congruence].
    pose proof BOOK_ALIASES_canonical as Hall.
    rewrite Forall_forall in Hall. rewrite (Hall _ Hin) in E. done.
Qed.

(** X5. [getBookNumber] always answers an integer from 0 to 66, and 0
    exactly for the inputs that resolve to no canonical book code. *)
Theorem getBookNumber_range (toUpperCase : list N → list N)
    (bookCode : list N) :
  ∃ n, DataApi.getBookNumber toUpperCase bookCode = Int n
       ∧ (0 ≤ n ≤ 66)%Z
       ∧ (n = 0%Z ↔ ¬ resolves toUpperCase bookCode).
Proof.
  destruct (resolves_or_not toUpperCase bookCode) as [Hres|Hnot].
  - destruct (getBookNumber_resolved _ _ Hres) as (n & Hn & Hrange).
    exists n. split; [done|]. split; [lia|]. split; [lia|done].
  - exists 0%Z. rewrite (getBookNumber_unresolved _ _ Hnot).
    split; [done|]. split; [lia|]. done.
Qed.

(** X6. From a code to its number and back: when [getBookNumber] answers a
    number other than 0, [getBookCode] of that number is the canonical code
    the input was folded to (aliases and lower case included). *)
Theorem getBookCode_of_getBookNumber (toUpperCase : list N → list N)
    (bookCode : list N) (n : Z) :
  DataApi.getBookNumber toUpperCase bookCode = Int n →
  n ≠ 0%Z →
  getBookCode (Int n) = DataApi.normalizeBookCode toUpperCase bookCode
  ∧ ∃ c, getBookCode (Int n) = Some c ∧ c ∈ canonical_codes.
Proof.
  unfold DataApi.getBookNumber. intros Hn Hne.
  destruct (DataApi.normalizeBookCode toUpperCase bookCode)
    as [[|c t]|] eqn:E.
  - injection Hn as <-. by destruct Hne.
  - assert ((c :: t) ∈ canonical_codes) as Hcanon.
    { unfold DataApi.normalizeBookCode in E.
      destruct bookCode as [|c0 t0]; [discriminate E|].
      destruct (BOOK_ALIASES !! toUpperCase (c0 :: t0)) as [[|c' t']|] eqn:Ea;
        try discriminate E.
      injection E as <- <-.
      exact (proj1 (BOOK_ALIASES_values _ _ Ea)). }
    destruct (BOOK_NUMBERS !! (c :: t)) as [m|] eqn:Em.
    + destruct (BOOK_NUMBERS_inverse _ _ Em) as [Hcode Hcanon_m].
      destruct m as [|m]; [discriminate Hcanon_m|].
      unfold lookup_or, num_or in Hn.
      destruct (m =? 0)%Z eqn:E0.
      * injection Hn as <-. by destruct Hne.
      * injection Hn as ->. split; [exact Hcode|].
        exists (c :: t). split; [exact Hcode|exact Hcanon].
    + injection Hn as <-. by destruct Hne.
  - injection Hn as <-. by destruct Hne.
Qed.

Lemma getBookCode_of_getBookNumber_witness :
  getBookCode (Int 43)
  = DataApi.normalizeBookCode ascii_upper (str "joh")
  ∧ ∃ c, getBookCode (Int 43) = Some c ∧ c ∈ canonical_codes.
Proof.
  apply (getBookCode_of_getBookNumber ascii_upper (str "joh") 43).
  - by vm_compute.
  - done.
Defined.

(** X7. From a number to its code and back: [getBookCode] answers a code
    exactly for the integers from 1 to 66, that code is canonical, and,
    [toUpperCase] leaving canonical codes as they are, [getBookNumber] of it
    is the number and [normalizeBookCode] of it is the code itself. *)
Theorem getBookNumber_of_getBookCode (toUpperCase : list N → list N)
    (bookNumber : number) :
  fixes_canonical_codes toUpperCase →
  (is_Some (getBookCode bookNumber)
   ↔ ∃ n, bookNumber = Int n ∧ (1 ≤ n ≤ 66)%Z)
  ∧ ∀ c, getBookCode bookNumber = Some c →
         c ∈ canonical_codes
         ∧ DataApi.normalizeBookCode toUpperCase c = Some c
         ∧ DataApi.getBookNumber toUpperCase c = bookNumber.
Proof.
  intros Hfix.
  assert (∀ c, getBookCode bookNumber = Some c →
               ∃ n, bookNumber = Int n ∧ (1 ≤ n ≤ 66)%Z
                    ∧ c ≠ [] ∧ c ∈ canonical_codes
                    ∧ BOOK_NUMBERS !! c = Some (Int n)) as Hget.
  { intros c. unfold getBookCode, index_by_number. intros Hc.
    destruct bookNumber as [|z]; [discriminate Hc|].
    destruct (0 <=? z)%Z eqn:Ez; [|discriminate Hc]. apply Z.leb_le in Ez.
    destruct (assoc_get (Z.to_N z) BOOK_CODES) as [[|c0 t0]|] eqn:Ea;
      try discriminate Hc.
    injection Hc as <-. apply assoc_get_elem_of in Ea.
    pose proof BOOK_CODES_inverse as Hall. rewrite Forall_forall in Hall.
    destruct (Hall _ Ea) as (Hnum & Hne & Hcanon). cbn [fst snd] in *.
    rewrite Z2N.id in Hnum by exact Ez.
    pose proof (proj2 (BOOK_NUMBERS_inverse _ _ Hnum)) as Hrange.
    unfold canonical_number in Hrange.
    apply andb_true_iff in Hrange as [H1 H2]. apply Z.leb_le in H1, H2.
    exists z. split; [reflexivity|]. split; [lia|].
    split; [exact Hne|]. split; [exact Hcanon|exact Hnum]. }
  split.
  - split.
    + intros [c Hc]. destruct (Hget c Hc) as (n & -> & Hn & _).
      exists n. split; [reflexivity|exact Hn].
    + intros (n & -> & Hn).
      assert (Forall (λ k, is_Some (getBookCode (Int (Z.of_nat k))))
                     (seq 1 66)) as Hall
        by (apply (bool_decide_unpack _); by vm_compute).
      rewrite Forall_forall in Hall.
      replace n with (Z.of_nat (Z.to_nat n)) by lia.
      apply Hall, list_elem_of_In, in_seq. lia.
  - intros c Hc. destruct (Hget c Hc) as (n & -> & Hn & Hne & Hcanon & Hnum).
    assert (DataApi.normalizeBookCode toUpperCase c = Some c) as Hnorm.
    { unfold DataApi.normalizeBookCode.
      destruct c as [|c0 t0]; [by destruct Hne|].
      rewrite (Hfix _ Hcanon).
      pose proof BOOK_ALIASES_canonical as Hall.
      rewrite Forall_forall in Hall. rewrite (Hall _ Hcanon). reflexivity. }
    split; [exact Hcanon|]. split; [exact Hnorm|].
    unfold DataApi.getBookNumber. rewrite Hnorm.
    destruct c as [|c0 t0]; [by destruct Hne|]. rewrite Hnum.
    unfold lookup_or, num_or.
    destruct (n =? 0)%Z eqn:E0; [|reflexivity]. apply Z.eqb_eq in E0. lia.
Qed.

Lemma ascii_upper_fixes_canonical : fixes_canonical_codes ascii_upper.
Proof.
  assert (Forall (λ c, ascii_upper c = c) canonical_codes) as Hall
    by (apply (bool_decide_unpack _); by vm_compute).
  rewrite Forall_forall in Hall. exact Hall.
Qed.

Lemma getBookNumber_of_getBookCode_witness :
  (is_Some (getBookCode (Int 26)) ↔ ∃ n, Int 26 = Int n ∧ (1 ≤ n ≤ 66)%Z)
  ∧ ∀ c, getBookCode (Int 26) = Some c →
         c ∈ canonical_codes
         ∧ DataApi.normalizeBookCode ascii_upper c = Some c
         ∧ DataApi.getBookNumber ascii_upper c = Int 26.
Proof.
  apply (getBookNumber_of_getBookCode ascii_upper (Int 26)).
  apply ascii_upper_fixes_canonical.
Defined.

(** ** Chapter navigation *)

Lemma sample_books_ok : books_ok sample_books.
Proof.
  assert (Forall (λ k, match find_book sample_books (Z.of_nat k) with
                       | Some b => (1 <=? book_chapters b)%Z
                       | None => false
                       end = true) (seq 1 66)) as Hall
    by (apply (bool_decide_unpack _); by vm_compute).
  rewrite Forall_forall in Hall. intros n Hn.
  specialize (Hall (Z.to_nat n)).
  rewrite Z2Nat.id in Hall by lia.
  assert (Z.to_nat n ∈ seq 1 66) as Hin by (apply list_elem_of_In, in_seq; lia).
  specialize (Hall Hin).
  destruct (find_book sample_books n) as [b|]; [|discriminate Hall].
  exists b. split; [reflexivity|]. by apply Z.leb_le.
Qed.

(** X8. Navigation never leaves the canon: from a chapter that exists, the
    previous-chapter and next-chapter moves lead to a chapter that exists.
    The previous move stays where it is only at chapter 1 of book 1, and the
    next move only at the last chapter of book 66. *)
Theorem navigation_stays_valid (books : list BookDesc) (p : Position) :
  books_ok books →
  valid_position books p →
  valid_position books (goToPrevChapter books p)
  ∧ (goToPrevChapter books p = p ↔ p = mkPos 1 1)
  ∧ ∃ q, goToNextChapter books p = Some q
         ∧ valid_position books q
         ∧ (q = p ↔ bookNumber p = 66%Z
                    ∧ ∃ b, find_book books 66 = Some b
                           ∧ chapter p = book_chapters b).
Proof.
  intros Hbooks ([Hb1 Hb2] & b & Hfind & Hc1 & Hc2).
  destruct p as [bn ch]. simpl in *. split; [|split].
  - unfold goToPrevChapter. simpl.
    destruct (1 <? ch)%Z eqn:E1.
    + apply Z.ltb_lt in E1. split; [simpl; lia|]. exists b. simpl.
      split; [done|lia].
    + destruct (1 <? bn)%Z eqn:E2.
      * apply Z.ltb_lt in E2.
        destruct (Hbooks (bn - 1)%Z) as (pb & Hpb & Hpc); [lia|].
        rewrite Hpb. split; [simpl; lia|]. exists pb. simpl.
        split; [done|lia].
      * split; [simpl; lia|]. exists b. simpl. split; [done|lia].
  - unfold goToPrevChapter. simpl.
    destruct (1 <? ch)%Z eqn:E1.
    + apply Z.ltb_lt in E1. split; intros [= ]; lia.
    + apply Z.ltb_ge in E1. destruct (1 <? bn)%Z eqn:E2.
      * apply Z.ltb_lt in E2.
        destruct (Hbooks (bn - 1)%Z) as (pb & Hpb & Hpc); [lia|].
        rewrite Hpb. split; intros [= ]; lia.
      * apply Z.ltb_ge in E2. split; [intros _|done]. f_equal; lia.
  - unfold goToNextChapter, currentBook. simpl. rewrite Hfind.
    eexists. split; [reflexivity|].
    destruct (ch <? book_chapters b)%Z eqn:E1.
    + apply Z.ltb_lt in E1. split.
      * split; [simpl; lia|]. exists b. simpl. split; [done|lia].
      * split; [intros [= ]; lia|].
        intros (-> & b' & Hb' & ->). rewrite Hfind in Hb'.
        injection Hb' as ->. lia.
    + apply Z.ltb_ge in E1. destruct (bn <? 66)%Z eqn:E2.
      * apply Z.ltb_lt in E2.
        destruct (Hbooks (bn + 1)%Z) as (nb & Hnb & Hnc); [lia|].
        split.
        -- split; [simpl; lia|]. exists nb. simpl. split; [done|lia].
        -- split; [intros [= ]; lia|]. intros [-> _]. lia.
      * apply Z.ltb_ge in E2. split.
        -- split; [simpl; lia|]. exists b. simpl. split; [done|lia].
        -- split; [intros _|done]. assert (bn = 66%Z) as -> by lia.
           split; [done|]. exists b. split; [done|lia].
Qed.

Lemma navigation_stays_valid_witness :
  valid_position sample_books (goToPrevChapter sample_books (mkPos 2 1))
  ∧ goToPrevChapter sample_books (mkPos 2 1) = mkPos 1 50.
Proof.
  split; [|reflexivity].
  refine (proj1 (navigation_stays_valid sample_books (mkPos 2 1)
                   sample_books_ok _)).
  split; [simpl; lia|]. exists (mkBook 2 [] 40). split; [reflexivity|].
  simpl. lia.
Defined.

(** X9. Going forth and back: from a chapter that exists, the next move
    followed by the previous move returns to the chapter, unless the next
    move did nothing; and the previous move followed by the next move
    returns to it, unless the previous move did nothing. *)
Theorem navigation_round_trip (books : list BookDesc) (p : Position) :
  books_ok books →
  valid_position books p →
  (∀ q, goToNextChapter books p = Some q → q ≠ p →
        goToPrevChapter books q = p)
  ∧ (goToPrevChapter books p ≠ p →
     goToNextChapter books (goToPrevChapter books p) = Some p).
Proof.
  intros Hbooks ([Hb1 Hb2] & b & Hfind & Hc1 & Hc2).
  destruct p as [bn ch]. simpl in *. split.
  - intros q. unfold goToNextChapter, currentBook. simpl. rewrite Hfind.
    intros [= <-] Hne. unfold goToPrevChapter.
    destruct (ch <? book_chapters b)%Z eqn:E1; simpl.
    + apply Z.ltb_lt in E1.
      replace (1 <? ch + 1)%Z with true by (symmetry; apply Z.ltb_lt; lia).
      f_equal. lia.
    + apply Z.ltb_ge in E1. destruct (bn <? 66)%Z eqn:E2; [|done]. simpl.
      apply Z.ltb_lt in E2.
      replace (1 <? bn + 1)%Z with true by (symmetry; apply Z.ltb_lt; lia).
      replace (bn + 1 - 1)%Z with bn by lia. rewrite Hfind. f_equal. lia.
  - unfold goToPrevChapter. simpl.
    destruct (1 <? ch)%Z eqn:E1.
    + intros _. apply Z.ltb_lt in E1.
      unfold goToNextChapter, currentBook. simpl. rewrite Hfind.
      replace (ch - 1 <? book_chapters b)%Z with true
        by (symmetry; apply Z.ltb_lt; lia).
      do 2 f_equal. lia.
    + apply Z.ltb_ge in E1. destruct (1 <? bn)%Z eqn:E2; [|done].
      apply Z.ltb_lt in E2.
      destruct (Hbooks (bn - 1)%Z) as (pb & Hpb & Hpc); [lia|].
      rewrite Hpb. intros _.
      unfold goToNextChapter, currentBook. simpl. rewrite Hpb.
      rewrite Z.ltb_irrefl.
      replace (bn - 1 <? 66)%Z with true by (symmetry; apply Z.ltb_lt; lia).
      do 2 f_equal; lia.
Qed.

Lemma navigation_round_trip_witness :
  goToNextChapter sample_books (goToPrevChapter sample_books (mkPos 40 1))
  = Some (mkPos 40 1)
  ∧ goToPrevChapter sample_books (mkPos 40 1) = mkPos 39 4.
Proof.
  split; [|reflexivity].
  refine (proj2 (navigation_round_trip sample_books (mkPos 40 1)
                   sample_books_ok _) _).
  - split; [simpl; lia|]. exists (mkBook 40 [] 28). split; [reflexivity|].
    simpl. lia.
  - by vm_compute.
Defined.

(** ** Chapter content *)

Lemma foldl_push_heading (els : list Element) (hs : list BSBHeading) :
  foldl (λ els h, els ++ [HeadingElement h]) els hs
  = els ++ (HeadingElement <$> hs).
Proof.
  revert els. induction hs as [|h hs IH]; intros els; simpl.
  - by rewrite app_nil_r.
  - rewrite IH. by rewrite <- app_assoc.
Qed.

Lemma renderContent_foldl (bsbHeadings : list BSBHeading)
    (els : list Element) (verses : list BSBVerse) :
  foldl (renderContent_step bsbHeadings) els verses
  = els ++ flat_map
      (λ verse,
         (HeadingElement <$>
            List.filter (λ h, num_eqb (heading_before_v h)
                                      (Int (verse_v verse))) bsbHeadings)
         ++ [VerseElement verse]) verses.
Proof.
  revert els. induction verses as [|verse verses IH]; intros els; simpl.
  - by rewrite app_nil_r.
  - rewrite IH. unfold renderContent_step. rewrite foldl_push_heading.
    by rewrite <- !app_assoc.
Qed.

Lemma num_eqb_Int (a : number) (z : Z) : num_eqb a (Int z) = true ↔ a = Int z.
Proof.
  destruct a as [|x]; simpl; [done|]. rewrite Z.eqb_eq.
  split; [by intros ->|by intros [= ->]].
Qed.

Lemma verses_of_app (a b : list Element) :
  verses_of (a ++ b) = verses_of a ++ verses_of b.
Proof. unfold verses_of. apply omap_app. Qed.

Lemma headings_of_app (a b : list Element) :
  headings_of (a ++ b) = headings_of a ++ headings_of b.
Proof. unfold headings_of. apply omap_app. Qed.

Lemma verses_of_headings (hs : list BSBHeading) :
  verses_of (HeadingElement <$> hs) = [].
Proof. induction hs; [done|]. by cbn. Qed.

Lemma headings_of_headings (hs : list BSBHeading) :
  headings_of (HeadingElement <$> hs) = hs.
Proof. induction hs as [|h hs IH]; [done|]. cbn. by f_equal. Qed.

(** X10. The content of a loaded chapter shows every verse once, in the
    order of the chapter, each preceded by the headings placed before its
    verse number, in the order of the heading list. So a heading is shown
    exactly when some verse of the chapter has the number it is placed
    before: a heading placed before a missing verse number is never shown.
    While no chapter is loaded there is no content. *)
Theorem renderContent_spec (verses : list BSBVerse)
    (bsbHeadings : list BSBHeading) :
  renderContent None bsbHeadings = None
  ∧ ∃ els, renderContent (Some verses) bsbHeadings = Some els
      ∧ els = flat_map
          (λ verse,
             (HeadingElement <$>
                List.filter (λ h, num_eqb (heading_before_v h)
                                          (Int (verse_v verse))) bsbHeadings)
             ++ [VerseElement verse]) verses
      ∧ verses_of els = verses
      ∧ ∀ h, h ∈ headings_of els ↔
             h ∈ bsbHeadings
             ∧ ∃ verse, verse ∈ verses
                        ∧ heading_before_v h = Int (verse_v verse).
Proof.
  split; [done|]. eexists. split; [reflexivity|].
  rewrite renderContent_foldl. simpl. split; [done|].
  induction verses as [|verse verses [IH1 IH2]]; simpl.
  - split; [done|]. intros h. split; [by intros ?%elem_of_nil|].
    by intros (_ & verse & ?%elem_of_nil & _).
  - rewrite !verses_of_app, !headings_of_app.
    rewrite verses_of_headings, headings_of_headings. simpl.
    split; [by rewrite IH1|]. intros h.
    rewrite app_nil_r, elem_of_app, IH2. split.
    + intros [Hin | (Hin & verse' & Hv & Heq)].
      * apply list_elem_of_In, filter_In in Hin as [Hin Hf].
        apply num_eqb_Int in Hf. split; [by apply list_elem_of_In|].
        exists verse. split; [left|done].
      * split; [done|]. exists verse'. split; [by right|done].
    + intros (Hin & verse' & [->|Hv]%elem_of_cons & Heq).
      * left. apply list_elem_of_In, filter_In.
        split; [by apply list_elem_of_In|]. by apply num_eqb_Int.
      * right. split; [done|]. by exists verse'.
Qed.

(** ** Strong's lexicon *)

Section LexiconProperties.
Context {Entry : Type} (toUpperCase : list N → list N).

Lemma load_lexicon_cached (slot : option (gmap (list N) Entry))
    (fetched fetched' : option (Lexicon.Response (list (list N * Entry))))
    (slot' : option (gmap (list N) Entry)) (lexicon : gmap (list N) Entry)
    (k : list N) (e : Entry) :
  Lexicon.load_lexicon slot fetched = (slot', lexicon) →
  lexicon !! k = Some e →
  Lexicon.load_lexicon slot' fetched' = (slot', lexicon).
Proof.
  unfold Lexicon.load_lexicon.
  destruct slot as [m|].
  - by intros [= <- <-].
  - destruct fetched as [[[] [data|]]|].
    all: intros [= <- <-]; try done.
    all: by rewrite lookup_empty.
Qed.

(** X11. A lexicon entry that was found stays found: when a look-up answers
    an entry, the lexicon it came from is in the cache, and the same look-up
    afterwards answers the same entry whatever the network does, leaving the
    cache as it is. *)
Theorem lexicon_found_is_cached
    (env env' : Lexicon.Env Entry) (st st' : Lexicon.Cache Entry)
    (strongsNumber : list N) (e : Entry) :
  Lexicon.getLexiconEntry toUpperCase env st strongsNumber = (st', Some e) →
  Lexicon.getLexiconEntry toUpperCase env' st' strongsNumber = (st', Some e).
Proof.
  unfold Lexicon.getLexiconEntry.
  destruct strongsNumber as [|c0 t0]; [done|].
  destruct (startsWith (toUpperCase (c0 :: t0)) 72).
  - unfold Lexicon.loadHebrewLexicon.
    destruct (Lexicon.load_lexicon (Lexicon.hebrew st) _) as [slot lexicon]
      eqn:E.
    intros [= <- He]. simpl.
    by rewrite (load_lexicon_cached _ _ (Lexicon.fetch_hebrew env') _ _ _ _
                  E He), He.
  - unfold Lexicon.loadGreekLexicon.
    destruct (Lexicon.load_lexicon (Lexicon.greek st) _) as [slot lexicon]
      eqn:E.
    intros [= <- He]. simpl.
    by rewrite (load_lexicon_cached _ _ (Lexicon.fetch_greek env') _ _ _ _
                  E He), He.
Qed.

Lemma load_lexicon_again (slot : option (gmap (list N) Entry))
    (fetched : option (Lexicon.Response (list (list N * Entry)))) :
  Lexicon.load_lexicon (Lexicon.load_lexicon slot fetched).1 fetched
  = Lexicon.load_lexicon slot fetched.
Proof.
  unfold Lexicon.load_lexicon.
  destruct slot as [m|]; [done|]. by destruct fetched as [[[] [data|]]|].
Qed.

Lemma getLexiconEntries_foldl (hebrew greek : gmap (list N) Entry)
    (results : gmap (list N) Entry) (nums : list (list N)) (k : list N) :
  foldl (Lexicon.getLexiconEntries_step toUpperCase hebrew greek) results nums
    !! k
  = if bool_decide (Exists (λ num, num ≠ [] ∧ toUpperCase num = k) nums)
    then match (if startsWith k 72 then hebrew !! k else greek !! k) with
         | Some e => Some e
         | None => results !! k
         end
    else results !! k.
Proof.
  revert results. induction nums as [|num nums IH]; intros results.
  - rewrite bool_decide_eq_false_2; [done|]. by intros ?%Exists_nil.
  - cbn [foldl]. rewrite IH. clear IH.
    set (look := if startsWith k 72 then hebrew !! k else greek !! k).
    assert (Lexicon.getLexiconEntries_step toUpperCase hebrew greek
              results num !! k
            = if bool_decide (num ≠ [] ∧ toUpperCase num = k)
              then match look with Some e => Some e | None => results !! k end
              else results !! k) as ->.
    { unfold Lexicon.getLexiconEntries_step.
      destruct num as [|c0 t0].
      - rewrite bool_decide_eq_false_2; [done|]. by intros [? _].
      - destruct (decide (toUpperCase (c0 :: t0) = k)) as [Heq|Hne].
        + rewrite bool_decide_eq_true_2 by done. rewrite Heq. fold look.
          destruct look as [e|]; [|done]. by rewrite lookup_insert_eq.
        + rewrite bool_decide_eq_false_2 by (by intros [_ ?]).
          destruct (if startsWith (toUpperCase (c0 :: t0)) 72
                    then hebrew !! toUpperCase (c0 :: t0)
                    else greek !! toUpperCase (c0 :: t0)); [|done].
          by rewrite lookup_insert_ne. }
    destruct (decide (num ≠ [] ∧ toUpperCase num = k)) as [HA|HA].
    + rewrite (bool_decide_eq_true_2 _ HA).
      rewrite (bool_decide_eq_true_2 (Exists _ (num :: nums)))
        by (by apply Exists_cons_hd).
      destruct (bool_decide _); [|done]. by destruct look.
    + rewrite (bool_decide_eq_false_2 _ HA).
      assert (bool_decide (Exists (λ num, num ≠ [] ∧ toUpperCase num = k)
                                  (num :: nums))
              = bool_decide (Exists (λ num, num ≠ [] ∧ toUpperCase num = k)
                                    nums)) as ->; [|done].
      apply bool_decide_ext. rewrite Exists_cons. tauto.
Qed.

(** X12. The bulk look-up agrees with the single one: each number of the
    list is answered, under its upper-case form, by what [getLexiconEntry]
    answers for it afterwards in the same circumstances, a number without an
    entry having no key; and every key of the answer is the upper-case form
    of a number of the list. *)
Theorem getLexiconEntries_agree
    (env : Lexicon.Env Entry) (st : Lexicon.Cache Entry)
    (strongsNumbers : list (list N)) :
  let st2 := (Lexicon.getLexiconEntries toUpperCase env st strongsNumbers).1 in
  let results :=
    (Lexicon.getLexiconEntries toUpperCase env st strongsNumbers).2 in
  (∀ num, num ∈ strongsNumbers → num ≠ [] →
          results !! toUpperCase num
          = (Lexicon.getLexiconEntry toUpperCase env st2 num).2)
  ∧ (∀ k, is_Some (results !! k) →
          ∃ num, num ∈ strongsNumbers ∧ num ≠ [] ∧ toUpperCase num = k).
Proof.
  unfold Lexicon.getLexiconEntries, Lexicon.loadHebrewLexicon,
    Lexicon.loadGreekLexicon.
  destruct (Lexicon.load_lexicon (Lexicon.hebrew st) (Lexicon.fetch_hebrew env))
    as [hslot hlex] eqn:Eh.
  cbn [Lexicon.greek Lexicon.hebrew].
  destruct (Lexicon.load_lexicon (Lexicon.greek st) (Lexicon.fetch_greek env))
    as [gslot glex] eqn:Eg.
  cbn [fst snd]. split.
  - intros num Hin Hne. rewrite getLexiconEntries_foldl, lookup_empty.
    rewrite bool_decide_eq_true_2.
    2:{ apply Exists_exists. by exists num. }
    unfold Lexicon.getLexiconEntry. destruct num as [|c0 t0]; [done|].
    pose proof (load_lexicon_again (Lexicon.hebrew st)
                  (Lexicon.fetch_hebrew env)) as Hh.
    pose proof (load_lexicon_again (Lexicon.greek st)
                  (Lexicon.fetch_greek env)) as Hg.
    rewrite Eh in Hh. rewrite Eg in Hg. cbn [fst] in Hh, Hg.
    unfold Lexicon.loadHebrewLexicon, Lexicon.loadGreekLexicon.
    cbn [Lexicon.greek Lexicon.hebrew]. rewrite Hh, Hg.
    destruct (startsWith (toUpperCase (c0 :: t0)) 72); cbn [snd].
    + by destruct (hlex !! toUpperCase (c0 :: t0)).
    + by destruct (glex !! toUpperCase (c0 :: t0)).
  - intros k. rewrite getLexiconEntries_foldl, lookup_empty.
    destruct (bool_decide _) eqn:E; [|by intros [? ?]].
    apply bool_decide_eq_true, Exists_exists in E as (num & Hin & Hne & Heq).
    intros _. by exists num.
Qed.

End LexiconProperties.

Lemma lexicon_found_is_cached_witness :
  Lexicon.getLexiconEntry ascii_upper (Lexicon.mkEnv None None)
    (Lexicon.mkCache (Some {[ str "H0001" := str "father" ]}) None)
    (str "h0001")
  = (Lexicon.mkCache (Some {[ str "H0001" := str "father" ]}) None,
     Some (str "father")).
Proof.
  apply (lexicon_found_is_cached ascii_upper sample_lexicon_env
           (Lexicon.mkEnv None None) empty_lexicon_cache).
  by vm_compute.
Defined.

Lemma getLexiconEntries_agree_witness :
  (Lexicon.getLexiconEntries ascii_upper sample_lexicon_env
     empty_lexicon_cache [ str "h0001"; str "g0001" ]).2 !! str "H0001"
  = (Lexicon.getLexiconEntry ascii_upper sample_lexicon_env
       (Lexicon.getLexiconEntries ascii_upper sample_lexicon_env
          empty_lexicon_cache [ str "h0001"; str "g0001" ]).1
       (str "h0001")).2.
Proof.
  refine (proj1 (getLexiconEntries_agree ascii_upper sample_lexicon_env
                   empty_lexicon_cache [ str "h0001"; str "g0001" ])
                (str "h0001") _ _).
  - left.
  - done.
Defined.

(** ** Concordance search by index scan *)

Lemma scan_foldl (normalized : list N)
    (entries : list IndexScan.BSBIndexEntry)
    (results : list IndexScan.ConcordanceResult) :
  Forall (λ entry, IndexScan.b entry ∉ Object_prototype_members) entries →
  foldl (IndexScan.scan_step normalized (startsWith normalized 72))
        results entries
  = results ++ (scan_result <$> List.filter (scan_keeps normalized) entries).
Proof.
  intros Hplain. revert results.
  induction Hplain as [|entry entries Hb _ IH]; intros results.
  - by rewrite app_nil_r.
  - cbn [foldl List.filter]. rewrite IH.
    unfold IndexScan.scan_step, scan_keeps, IndexScan.isOldTestament.
    rewrite (object_get_plain _ _ Hb), value_or_plain. cbn [to_number].
    destruct (eqb (startsWith normalized 72) _); cbn [negb andb].
    + destruct (match IndexScan.s entry with
                | Some l => bool_decide (normalized ∈ l)
                | None => false
                end).
      * cbn [fmap list_fmap]. by rewrite <- app_assoc.
      * reflexivity.
    + reflexivity.
Qed.

Lemma scan_compare_lex (a b : IndexScan.ConcordanceResult) :
  (∃ x y z, scan_key a = (Int x, Int y, Int z)) →
  (∃ x y z, scan_key b = (Int x, Int y, Int z)) →
  cmp_le IndexScan.compare_results a b = true
  ↔ lex_le (scan_key a) (scan_key b).
Proof.
  unfold cmp_le, IndexScan.compare_results, scan_key.
  intros (a1 & a2 & a3 & [= -> -> ->]) (b1 & b2 & b3 & [= -> -> ->]). simpl.
  destruct (a1 - b1 =? 0)%Z eqn:E1; simpl.
  - apply Z.eqb_eq in E1.
    destruct (a2 - b2 =? 0)%Z eqn:E2; simpl.
    + apply Z.eqb_eq in E2. rewrite Z.leb_le. lia.
    + rewrite ?E2. apply Z.eqb_neq in E2. rewrite Z.leb_le. lia.
  - rewrite ?E1. apply Z.eqb_neq in E1. rewrite Z.leb_le. lia.
Qed.

(** X13. The index scan is complete and exact on an index whose book
    codes are codes (none names a member that every object inherits) and
    whose chapters and verses are integers: its result is a rearrangement of
    the index entries that list the upper-cased number and whose book lies
    in the testament of the number (for a number that does not start with
    H: any book outside 1 to 39, codes without a number included), one
    result per such entry; and it is non-decreasing in (bookNumber, chapter,
    verse). *)
Theorem index_scan_complete_and_sorted (toUpperCase : list N → list N)
    (indexCache : list (list N * IndexScan.BSBIndexEntry)) (sn : list N) :
  Forall (λ ke, (∃ c v, IndexScan.c ke.2 = Int c ∧ IndexScan.v ke.2 = Int v)
                ∧ IndexScan.b ke.2 ∉ Object_prototype_members)
         indexCache →
  IndexScan.searchConcordance toUpperCase indexCache sn
    ≡ₚ scan_result <$> List.filter (scan_keeps (toUpperCase sn))
                                   (List.map snd indexCache)
  ∧ StronglySorted (λ a b, lex_le (scan_key a) (scan_key b))
      (IndexScan.searchConcordance toUpperCase indexCache sn).
Proof.
  intros Hint. unfold IndexScan.searchConcordance. rewrite scan_foldl.
  2: { apply Forall_forall. intros entry Hin.
       apply list_elem_of_In, in_map_iff in Hin as (ke & <- & Hin).
       rewrite Forall_forall in Hint.
       by destruct (Hint ke) as [_ Hb]; [apply list_elem_of_In|]. }
  cbn [app]. split; [apply sort_Permutation|].
  apply (sort_sorted _ (λ r, ∃ x y z, scan_key r = (Int x, Int y, Int z))).
  - apply scan_compare_lex.
  - intros x y Hx Hy. by apply lex_le_total.
  - intros x y z _ _ _. apply lex_le_trans.
  - apply Forall_fmap, Forall_forall. intros entry Hin.
    apply list_elem_of_In, filter_In in Hin as [Hin _].
    apply in_map_iff in Hin as (ke & <- & Hin).
    rewrite Forall_forall in Hint.
    destruct (Hint ke) as [(c & v & Hc & Hv) _]; [by apply list_elem_of_In|].
    destruct (lookup_or_zero_int (BOOK_NUMBERS !! IndexScan.b ke.2))
      as [bn Hbn].
    exists bn, c, v. unfold scan_key, scan_result.
    cbn [IndexScan.bookNumber IndexScan.chapter IndexScan.verse compose
         to_number].
    by rewrite Hbn, Hc, Hv.
Qed.

Lemma index_scan_complete_and_sorted_witness :
  IndexScan.searchConcordance ascii_upper sample_index (str "h0001")
    ≡ₚ scan_result <$> List.filter (scan_keeps (ascii_upper (str "h0001")))
                                   (List.map snd sample_index)
  ∧ StronglySorted (λ a b, lex_le (scan_key a) (scan_key b))
      (IndexScan.searchConcordance ascii_upper sample_index (str "h0001")).
Proof.
  apply (index_scan_complete_and_sorted ascii_upper sample_index
           (str "h0001")).
  unfold sample_index.
  repeat (apply Forall_cons_2;
          [split; [by eexists _, _|];
           intros Hin; by apply (bool_decide_pack _) in Hin|]).
  apply Forall_nil_2.
Defined.

(** ** Loading and caching *)

Lemma normalizeBookCode_canonical (toUpperCase : list N → list N)
    (bookCode c : list N) :
  DataApi.normalizeBookCode toUpperCase bookCode = Some c →
  c ∈ canonical_codes ∧ c ≠ [].
Proof.
  unfold DataApi.normalizeBookCode. intros E.
  destruct bookCode as [|c0 t0]; [discriminate E|].
  destruct (BOOK_ALIASES !! toUpperCase (c0 :: t0)) as [[|c' t']|] eqn:Ea;
    try discriminate E.
  injection E as <-. split; [|discriminate].
  exact (proj1 (BOOK_ALIASES_values _ _ Ea)).
Qed.

Lemma canonical_codes_length (c : list N) :
  c ∈ canonical_codes → length c = 3%nat.
Proof.
  assert (Forall (λ c, length c = 3%nat) canonical_codes) as Hall
    by (apply (bool_decide_unpack _); by vm_compute).
  rewrite Forall_forall in Hall. apply Hall.
Qed.

Lemma str_inj (s1 s2 : string) : str s1 = str s2 → s1 = s2.
Proof.
  unfold str. intros H.
  rewrite <- (string_of_list_ascii_of_string s1),
          <- (string_of_list_ascii_of_string s2). f_equal.
  revert H. generalize (list_ascii_of_string s1) (list_ascii_of_string s2).
  intros l1. induction l1 as [|a l1 IH]; intros [|b l2]; simpl; try done.
  intros [= Hab Hl]. f_equal; [|by apply IH].
  rewrite <- (ascii_N_embedding a), <- (ascii_N_embedding b). by rewrite Hab.
Qed.

Lemma pretty_N_go_ne_NaN (x : N) (s : string) :
  s ≠ "NaN"%string → pretty_N_go x s ≠ "NaN"%string.
Proof.
  revert s. induction (N.lt_wf_0 x) as [x _ IH]; intros s Hs.
  assert (x = 0 ∨ 0 < x)%N as [->|Hpos] by lia.
  - by rewrite pretty_N_go_0.
  - rewrite pretty_N_go_step by done. apply IH.
    { by apply N.div_lt. }
    unfold pretty_N_char. by repeat case_match.
Qed.

Lemma pretty_Z_ne_NaN (z : Z) : pretty z ≠ "NaN"%string.
Proof.
  destruct z as [|x|x]; unfold pretty, pretty_Z; [done| |done].
  unfold pretty, pretty_positive, pretty, pretty_N.
  case_decide; [done|]. by apply pretty_N_go_ne_NaN.
Qed.

Lemma number_to_string_inj (a b : number) :
  Store.number_to_string a = Store.number_to_string b → a = b.
Proof.
  destruct a as [|x], b as [|y]; unfold Store.number_to_string;
    intros H%str_inj; try done.
  - symmetry in H. by apply pretty_Z_ne_NaN in H.
  - by apply pretty_Z_ne_NaN in H.
  - f_equal. by apply (inj pretty).
Qed.

Lemma cache_key_inj (c1 c2 : list N) (n1 n2 : number) :
  c1 ∈ canonical_codes → c2 ∈ canonical_codes →
  Store.cache_key c1 n1 = Store.cache_key c2 n2 → c1 = c2 ∧ n1 = n2.
Proof.
  intros H1%canonical_codes_length H2%canonical_codes_length.
  unfold Store.cache_key. intros H.
  apply app_inj_1 in H as [-> H]; [|congruence]. split; [done|].
  apply app_inv_head in H. by apply number_to_string_inj.
Qed.

Section StoreProperties.
Context {Entry : Type} (toUpperCase : list N → list N).
Context (parse_heading : list N → option BSBHeading).
Context (parse_entry : list N → option Entry).

Lemma chapter_normalized_caches (fetch fetch' : Store.Fetch)
    (st st' : Store.State Entry) (normalized : list N) (n : number)
    (r : option Store.BSBChapter) :
  Store.loadBSBChapter_normalized toUpperCase fetch st normalized n = (st', r)
  → (r = None → st' = st)
    ∧ (∀ ch, r = Some ch →
         Store.loadBSBChapter_normalized toUpperCase fetch' st' normalized n
         = (st', Some ch)).
Proof.
  unfold Store.loadBSBChapter_normalized.
  destruct (Store.chapterCache st !! Store.cache_key normalized n)
    as [cached|] eqn:Ehit.
  - intros [= <- <-]. split; [discriminate|]. intros ch [= <-].
    rewrite Ehit. reflexivity.
  - destruct (fetch (Store.display_url normalized n)) as [response|].
    2:{ intros [= <- <-]. split; [reflexivity|discriminate]. }
    destruct (negb (Store.ok response)).
    { intros [= <- <-]. split; [reflexivity|discriminate]. }
    destruct (Store.json_display response) as [data|].
    2:{ intros [= <- <-]. split; [reflexivity|discriminate]. }
    destruct (Store.eng data) as [engObj|].
    2:{ intros [= <- <-]. split; [reflexivity|discriminate]. }
    intros [= <- <-]. split; [discriminate|]. intros ch [= <-].
    cbn [Store.chapterCache]. rewrite lookup_insert_eq. reflexivity.
Qed.

(** X14. Loading a chapter caches successes and nothing else: when the load
    answers no chapter the state is unchanged (so the next call tries
    again), and when it answers a chapter, the same call afterwards answers
    the same chapter without changing the state, whatever the network
    does. *)
Theorem loadBSBChapter_caches (fetch fetch' : Store.Fetch)
    (st st' : Store.State Entry) (bookCode : list N) (n : number)
    (r : option Store.BSBChapter) :
  Store.loadBSBChapter toUpperCase fetch st bookCode n = (st', r) →
  (r = None → st' = st)
  ∧ (∀ ch, r = Some ch →
       Store.loadBSBChapter toUpperCase fetch' st' bookCode n
       = (st', Some ch)).
Proof.
  unfold Store.loadBSBChapter.
  destruct (DataApi.normalizeBookCode toUpperCase bookCode) as [[|c t]|].
  - intros [= <- <-]. split; [reflexivity|discriminate].
  - apply chapter_normalized_caches.
  - intros [= <- <-]. split; [reflexivity|discriminate].
Qed.

Lemma build_verses_testament (isOT : bool) (data : Store.DisplayData)
    (engObj : list (list N * list BSBWord)) :
  Forall (verse_testament_ok isOT) (Store.build_verses isOT data engObj).
Proof.
  unfold Store.build_verses. apply Forall_forall. intros x Hx.
  apply list_elem_of_In, in_map_iff in Hx as (k & <- & _).
  unfold Store.build_verse, verse_testament_ok.
  cbn [Store.heb Store.grk].
  destruct isOT.
  - split; [by right|]. split; [done|]. by intros [? [=]].
  - split; [by left|]. split; [|done]. by intros [? [=]].
Qed.

(** X15. A cached chapter is never served for another book or chapter: if
    every cached chapter sits under the key of its own book and chapter,
    this still holds after a load, and the chapter the load answers has the
    canonical code of the requested book and the requested chapter number.
    Moreover each of its verses has the words of at most one original
    language, Hebrew only in a book of the Old Testament, Greek only in
    another book. *)
Theorem loadBSBChapter_consistent (fetch : Store.Fetch)
    (st st' : Store.State Entry) (bookCode : list N) (n : number)
    (r : option Store.BSBChapter) :
  cache_ok toUpperCase st →
  Store.loadBSBChapter toUpperCase fetch st bookCode n = (st', r) →
  cache_ok toUpperCase st'
  ∧ ∀ ch, r = Some ch →
          DataApi.normalizeBookCode toUpperCase bookCode
          = Some (Store.book ch)
          ∧ Store.chapter ch = n
          ∧ chapter_ok toUpperCase ch.
Proof.
  intros Hok. unfold Store.loadBSBChapter.
  destruct (DataApi.normalizeBookCode toUpperCase bookCode) as [c|] eqn:En.
  2:{ intros [= <- <-]. split; [exact Hok|discriminate]. }
  destruct (normalizeBookCode_canonical _ _ _ En) as [Hcanon Hne].
  destruct c as [|c0 t0]; [by destruct Hne|].
  unfold Store.loadBSBChapter_normalized.
  destruct (Store.chapterCache st !! Store.cache_key (c0 :: t0) n)
    as [cached|] eqn:Ehit.
  - intros [= <- <-]. split; [exact Hok|]. intros ch [= <-].
    destruct (Hok _ _ Ehit) as [Hkey Hch].
    destruct (cache_key_inj _ _ _ _ Hcanon (proj1 Hch) Hkey) as [Hb Hn].
    split; [by rewrite <- Hb|]. split; [by rewrite <- Hn|exact Hch].
  - destruct (fetch (Store.display_url (c0 :: t0) n)) as [response|].
    2:{ intros [= <- <-]. split; [exact Hok|discriminate]. }
    destruct (negb (Store.ok response)).
    { intros [= <- <-]. split; [exact Hok|discriminate]. }
    destruct (Store.json_display response) as [data|].
    2:{ intros [= <- <-]. split; [exact Hok|discriminate]. }
    destruct (Store.eng data) as [engObj|].
    2:{ intros [= <- <-]. split; [exact Hok|discriminate]. }
    intros [= <- <-].
    assert (chapter_ok toUpperCase
              (Store.mkChapter (c0 :: t0) n
                 (Store.build_verses
                    (DataApi.isOldTestament toUpperCase (c0 :: t0))
                    data engObj))) as Hnew.
    { split; [exact Hcanon|]. cbn [Store.book Store.verses].
      apply build_verses_testament. }
    split.
    + intros k ch. cbn [Store.chapterCache].
      destruct (decide (Store.cache_key (c0 :: t0) n = k)) as [<-|Hk].
      * rewrite lookup_insert_eq. intros [= <-]. split; [reflexivity|].
        exact Hnew.
      * rewrite lookup_insert_ne by exact Hk. apply Hok.
    + intros ch [= <-]. split; [reflexivity|]. split; [reflexivity|].
      exact Hnew.
Qed.

Lemma prop_get_NoDup {V : Type} (o : list (list N * V)) (k : list N)
    (x : V) :
  NoDup o.*1 → (k, x) ∈ o → Store.prop_get k o = Some x.
Proof.
  induction o as [|[k' y] o IH]; simpl; [by intros _ ?%elem_of_nil|].
  intros [Hk' Hnd]%NoDup_cons [[= -> ->]|Hin]%elem_of_cons.
  - by rewrite bool_decide_eq_true_2.
  - rewrite bool_decide_eq_false_2; [by apply IH|].
    intros ->. apply Hk'. apply list_elem_of_fmap. by exists (k, x).
Qed.

Lemma verse_keys_sorted (keys : list (list N)) :
  Forall (λ k, ∃ z, parseInt (Some k) = Int z) keys →
  StronglySorted (λ a b, num_le (parseInt (Some a)) (parseInt (Some b)))
    (sort (λ a b, num_sub (parseInt (Some a)) (parseInt (Some b))) keys).
Proof.
  apply (sort_sorted _ (λ k, ∃ z, parseInt (Some k) = Int z)).
  - intros a b [x Hx] [y Hy]. unfold cmp_le, num_le. rewrite Hx, Hy.
    cbn [num_sub]. rewrite Z.leb_le. lia.
  - intros a b [x Hx] [y Hy]. unfold num_le. rewrite Hx, Hy. lia.
  - intros a b c [x Hx] [y Hy] [z Hz]. unfold num_le.
    rewrite Hx, Hy, Hz. lia.
Qed.

(** X16. A chapter read from the network has one verse per key of the
    English object of the file, with the words of that key, whatever the
    order of the keys in the file, and its verses are in ascending order of
    verse number (the keys being distinct numerals of magnitude below
    2^53, where the numbers read from them are exact). *)
Theorem loadBSBChapter_fresh (fetch : Store.Fetch) (st : Store.State Entry)
    (bookCode normalized : list N) (n : number) (response : Store.Response)
    (data : Store.DisplayData) (engObj : list (list N * list BSBWord)) :
  DataApi.normalizeBookCode toUpperCase bookCode = Some normalized →
  Store.chapterCache st !! Store.cache_key normalized n = None →
  fetch (Store.display_url normalized n) = Some response →
  Store.ok response = true →
  Store.json_display response = Some data →
  Store.eng data = Some engObj →
  NoDup engObj.*1 →
  Forall (λ kw : list N * list BSBWord,
            safe_int (parseInt (Some kw.1)) = true)
         engObj →
  ∃ ch, (Store.loadBSBChapter toUpperCase fetch st bookCode n).2 = Some ch
    ∧ StronglySorted (λ x y, num_le (Store.v x) (Store.v y))
                     (Store.verses ch)
    ∧ (λ x, (Store.v x, Store.w x)) <$> Store.verses ch
      ≡ₚ (λ kw : list N * list BSBWord, (parseInt (Some kw.1), kw.2))
           <$> engObj.
Proof.
  intros En Hmiss Hfetch Hok Hjson Heng Hnodup Hsafe.
  assert (Forall (λ kw : list N * list BSBWord,
                    ∃ z, parseInt (Some kw.1) = Int z) engObj) as Hnum.
  { eapply Forall_impl; [exact Hsafe|]. intros kw Hkw. cbn beta in Hkw.
    destruct (parseInt (Some kw.1)) as [|z]; [discriminate Hkw|].
    by exists z. }
  destruct (normalizeBookCode_canonical _ _ _ En) as [_ Hne].
  unfold Store.loadBSBChapter. rewrite En.
  destruct normalized as [|c0 t0]; [by destruct Hne|].
  unfold Store.loadBSBChapter_normalized.
  rewrite Hmiss, Hfetch, Hok, Hjson, Heng. cbn [negb snd].
  eexists. split; [reflexivity|]. cbn [Store.verses].
  unfold Store.build_verses. split.
  - apply (StronglySorted_fmap _
             (λ a b, num_le (parseInt (Some a)) (parseInt (Some b)))).
    + intros a b Hab. exact Hab.
    + apply verse_keys_sorted. apply Forall_fmap.
      eapply Forall_impl; [exact Hnum|]. by intros [k x].
  - change (List.map ?f ?l) with (f <$> l).
    rewrite <- list_fmap_compose, sort_Permutation, <- list_fmap_compose.
    assert (∀ l : list (list N * list BSBWord),
              l ⊆ engObj →
              (λ x, (Store.v x, Store.w x))
                ∘ Store.build_verse
                    (DataApi.isOldTestament toUpperCase (c0 :: t0)) data
                    engObj
                ∘ fst <$> l
              = (λ kw : list N * list BSBWord, (parseInt (Some kw.1), kw.2))
                  <$> l) as Hext.
    { intros l. induction l as [|[k x] l IH]; intros Hsub; [done|].
      cbn [fmap list_fmap]. f_equal.
      - unfold compose, Store.build_verse. cbn [Store.v Store.w fst snd].
        rewrite (prop_get_NoDup _ k x Hnodup); [done|].
        apply Hsub. left.
      - apply IH. intros y Hy. apply Hsub. by right. }
    by rewrite Hext.
Qed.

Lemma index_entries_lookup (i : nat) (es : list Entry)
    (entries : gmap nat Entry) (k : nat) :
  Store.index_entries i es entries !! k
  = if decide (i < k ≤ i + length es)%nat then es !! (k - S i)%nat
    else entries !! k.
Proof.
  revert i entries. induction es as [|e es IH]; intros i entries; simpl.
  - rewrite decide_False by lia. reflexivity.
  - rewrite IH. destruct (decide (k = S i)) as [->|Hk].
    + rewrite decide_False by lia. rewrite decide_True by lia.
      by rewrite lookup_insert_eq, Nat.sub_diag.
    + rewrite lookup_insert_ne by done.
      destruct (decide (S i < k ≤ S i + length es)%nat).
      * rewrite decide_True by lia.
        by replace (k - S i)%nat with (S (k - S (S i))) by lia.
      * rewrite decide_False by lia. reflexivity.
Qed.

Lemma parse_lines_length {A : Type} (parse : list N → option A)
    (lines : list (list N)) (xs : list A) :
  Store.parse_lines parse lines = Some xs → length xs = length lines.
Proof.
  revert xs. induction lines as [|line lines IH]; intros xs; simpl.
  - by intros [= <-].
  - destruct (parse line); [|done].
    destruct (Store.parse_lines parse lines) as [ys|]; [|done].
    intros [= <-]. simpl. f_equal. by apply IH.
Qed.

(** X17. The verse index numbers its lines from 1: when the index file of a
    chapter is read from the network and every line parses, entry k of the
    index is line k of the trimmed file, there is no entry 0 and none after
    the last line, and there is always an entry 1 (a file without any line
    cannot be parsed); when some line does not parse, the load answers no
    index and the state is unchanged. *)
Theorem loadChapterIndex_lines (fetch : Store.Fetch)
    (st : Store.State Entry) (bookCode normalized : list N) (n : number)
    (response : Store.Response) (t : list N) :
  DataApi.normalizeBookCode toUpperCase bookCode = Some normalized →
  Store.chapterIndexCache st !! Store.cache_key normalized n = None →
  fetch (Store.index_url normalized n) = Some response →
  Store.ok response = true →
  Store.text response = Some t →
  (∀ es, Store.parse_lines parse_entry (split_on 10 (trim t)) = Some es →
         ∃ idx,
           (Store.loadChapterIndex toUpperCase parse_entry fetch st
              bookCode n).2 = Some idx
           ∧ (∀ i, idx !! S i = es !! i)
           ∧ idx !! 0%nat = None
           ∧ is_Some (idx !! 1%nat))
  ∧ (Store.parse_lines parse_entry (split_on 10 (trim t)) = None →
     Store.loadChapterIndex toUpperCase parse_entry fetch st bookCode n
     = (st, None)).
Proof.
  intros En Hmiss Hfetch Hok Htext.
  destruct (normalizeBookCode_canonical _ _ _ En) as [_ Hne].
  unfold Store.loadChapterIndex. rewrite En.
  destruct normalized as [|c0 t0]; [by destruct Hne|].
  unfold Store.loadChapterIndex_normalized.
  rewrite Hmiss, Hfetch, Hok, Htext. cbn [negb]. split.
  - intros es Hes. rewrite Hes. cbn [snd]. eexists. split; [reflexivity|].
    split; [|split].
    + intros i. rewrite index_entries_lookup.
      destruct (decide (0 < S i ≤ 0 + length es)%nat) as [Hi|Hi].
      * f_equal. lia.
      * rewrite lookup_empty. symmetry. apply lookup_ge_None. lia.
    + rewrite index_entries_lookup. rewrite decide_False by lia.
      apply lookup_empty.
    + rewrite index_entries_lookup.
      apply parse_lines_length in Hes.
      destruct (split_on_cons 10 (trim t)) as (h & tl & Hsplit).
      rewrite Hsplit in Hes. destruct es as [|e es]; [discriminate Hes|].
      rewrite decide_True by (simpl; lia). by eexists.
  - intros Hnone. by rewrite Hnone.
Qed.

Lemma loadBSBChapter_other_caches (fetch : Store.Fetch)
    (st : Store.State Entry) (bookCode : list N) (n : number) :
  Store.headingsCache
    (Store.loadBSBChapter toUpperCase fetch st bookCode n).1
  = Store.headingsCache st
  ∧ Store.chapterIndexCache
      (Store.loadBSBChapter toUpperCase fetch st bookCode n).1
    = Store.chapterIndexCache st.
Proof.
  unfold Store.loadBSBChapter.
  destruct (DataApi.normalizeBookCode toUpperCase bookCode) as [[|c t]|];
    [done| |done].
  unfold Store.loadBSBChapter_normalized.
  destruct (Store.chapterCache st !! _); [done|].
  destruct (fetch _) as [response|]; [|done].
  destruct (negb (Store.ok response)); [done|].
  destruct (Store.json_display response) as [data|]; [|done].
  by destruct (Store.eng data).
Qed.

Lemma loadHeadings_frame (fetch : Store.Fetch) (st1 st2 : Store.State Entry) :
  Store.headingsCache st1 = Store.headingsCache st2 →
  (Store.loadHeadings parse_heading fetch st1).2
  = (Store.loadHeadings parse_heading fetch st2).2
  ∧ Store.chapterIndexCache (Store.loadHeadings parse_heading fetch st1).1
    = Store.chapterIndexCache st1.
Proof.
  unfold Store.loadHeadings. intros <-.
  destruct (Store.headingsCache st1); [done|].
  destruct (fetch _) as [response|]; [|done].
  destruct (negb (Store.ok response)); [done|].
  destruct (Store.text response) as [t|]; [|done].
  by destruct (Store.parse_lines _ _).
Qed.

Lemma loadChapterIndex_frame (fetch : Store.Fetch)
    (st1 st2 : Store.State Entry) (bookCode : list N) (n : number) :
  Store.chapterIndexCache st1 = Store.chapterIndexCache st2 →
  (Store.loadChapterIndex toUpperCase parse_entry fetch st1 bookCode n).2
  = (Store.loadChapterIndex toUpperCase parse_entry fetch st2 bookCode n).2.
Proof.
  unfold Store.loadChapterIndex. intros Heq.
  destruct (DataApi.normalizeBookCode toUpperCase bookCode) as [[|c t]|];
    [done| |done].
  unfold Store.loadChapterIndex_normalized. rewrite <- Heq.
  destruct (Store.chapterIndexCache st1 !! _); [done|].
  destruct (fetch _) as [response|]; [|done].
  destruct (negb (Store.ok response)); [done|].
  destruct (Store.text response) as [t'|]; [|done].
  by destruct (Store.parse_lines _ _).
Qed.

(** X18. The enriched load fails only with the chapter: it answers nothing
    exactly when the book number has no code or the chapter itself cannot
    be loaded. Otherwise it answers that chapter, the headings of the
    heading load that belong to this book and chapter, and the index of the
    index load, or an empty index when that load fails; each of the three
    parts is what its loader would answer on its own from the state before
    the call. *)
Theorem loadEnrichedBSBChapter_parts (fetch : Store.Fetch)
    (st : Store.State Entry) (bookNumber chapterNumber : number) :
  let r := (Store.loadEnrichedBSBChapter toUpperCase parse_heading
              parse_entry fetch st bookNumber chapterNumber).2 in
  (r = None ↔
   getBookCode bookNumber = None
   ∨ ∃ code, getBookCode bookNumber = Some code
             ∧ (Store.loadBSBChapter toUpperCase fetch st code
                  chapterNumber).2 = None)
  ∧ ∀ e, r = Some e →
      ∃ code, getBookCode bookNumber = Some code
        ∧ (Store.loadBSBChapter toUpperCase fetch st code chapterNumber).2
          = Some (Store.enriched_chapter e)
        ∧ Store.enriched_headings e
          = List.filter (λ h, bool_decide (heading_b h = code)
                              && num_eqb (heading_c h) chapterNumber)
                        (Store.loadHeadings parse_heading fetch st).2
        ∧ Forall (λ h, heading_b h = code ∧ heading_c h = chapterNumber)
                 (Store.enriched_headings e)
        ∧ Store.indexEntries e
          = default ∅ (Store.loadChapterIndex toUpperCase parse_entry fetch
                         st code chapterNumber).2.
Proof.
  cbv zeta. unfold Store.loadEnrichedBSBChapter.
  destruct (getBookCode bookNumber) as [code|].
  2:{ split; [split; [by left|done]|discriminate]. }
  pose proof (loadBSBChapter_other_caches fetch st code chapterNumber)
    as [Hh Hi].
  destruct (Store.loadBSBChapter toUpperCase fetch st code chapterNumber)
    as [st1 chapterData] eqn:Ech. cbn [fst snd] in *.
  pose proof (loadHeadings_frame fetch st1 st Hh) as [Hhr Hhi].
  destruct (Store.loadHeadings parse_heading fetch st1) as [st2 allHeadings].
  cbn [fst snd] in *.
  pose proof (loadChapterIndex_frame fetch st2 st code chapterNumber) as Hir.
  rewrite Hhi, Hi in Hir. specialize (Hir eq_refl).
  destruct (Store.loadChapterIndex toUpperCase parse_entry fetch st2 code
              chapterNumber) as [st3 indexData]. cbn [fst snd] in *.
  destruct chapterData as [ch|]; cbn [snd].
  - split.
    + split; [discriminate|]. intros [H | (code' & Hc & H)];
        [discriminate H|].
      injection Hc as <-. rewrite Ech in H. discriminate H.
    + intros e [= <-]. exists code. split; [reflexivity|].
      cbn [Store.enriched_chapter Store.enriched_headings Store.indexEntries].
      rewrite Ech. split; [reflexivity|]. rewrite <- Hhr, <- Hir.
      split; [reflexivity|]. split; [|reflexivity].
      apply Forall_forall. intros h Hin.
      apply list_elem_of_In, filter_In in Hin as [_ Hf].
      apply andb_true_iff in Hf as [Hb Hc].
      apply bool_decide_eq_true in Hb. split; [exact Hb|].
      destruct (heading_c h) as [|x], chapterNumber as [|y];
        try discriminate Hc.
      apply Z.eqb_eq in Hc. by rewrite Hc.
  - split; [|discriminate]. split; [|reflexivity].
    intros _. right. exists code. split; [reflexivity|].
    by rewrite Ech.
Qed.

(** X19. The concordance is fetched until it has been loaded once, and
    never after: when a search leaves the cache empty, it answered the
    empty list and changed nothing; when it leaves a concordance in the
    cache, every later search, whatever the network does, is the search in
    that concordance and leaves the state as it is. *)
Theorem searchConcordance_loads_once (fetch : Store.Fetch)
    (st : Store.State Entry) (sn : list N) :
  let st' := (Store.searchConcordance toUpperCase fetch st sn).1 in
  (Store.concordanceCache st' = None →
   Store.searchConcordance toUpperCase fetch st sn = (st, []))
  ∧ (∀ concordance fetch' sn',
       Store.concordanceCache st' = Some concordance →
       (Store.searchConcordance toUpperCase fetch st sn).2
       = DataApi.searchConcordance toUpperCase (Some concordance) sn
       ∧ Store.searchConcordance toUpperCase fetch' st' sn'
         = (st', DataApi.searchConcordance toUpperCase (Some concordance)
                   sn')).
Proof.
  cbv zeta. unfold Store.searchConcordance, Store.loadConcordance.
  destruct (Store.concordanceCache st) as [cached|] eqn:Ec.
  - cbn [fst snd]. rewrite Ec. split; [discriminate|].
    intros concordance fetch' sn' [= <-]. split; reflexivity.
  - destruct (fetch Store.concordance_url) as [response|];
      [|cbn [fst snd]; rewrite Ec; split; [reflexivity|discriminate]].
    destruct (negb (Store.ok response));
      [cbn [fst snd]; rewrite Ec; split; [reflexivity|discriminate]|].
    destruct (Store.json_concordance response) as [data|];
      [|cbn [fst snd]; rewrite Ec; split; [reflexivity|discriminate]].
    cbn [fst snd Store.concordanceCache]. split; [discriminate|].
    intros concordance fetch' sn' [= <-]. split; reflexivity.
Qed.

End StoreProperties.

Lemma loadBSBChapter_caches_witness :
  Store.loadBSBChapter ascii_upper offline
    (Store.loadBSBChapter ascii_upper sample_fetch empty_state (str "gen")
                          (Int 1)).1
    (str "gen") (Int 1)
  = Store.loadBSBChapter ascii_upper sample_fetch empty_state (str "gen")
                         (Int 1).
Proof.
  destruct (Store.loadBSBChapter ascii_upper sample_fetch empty_state
              (str "gen") (Int 1)) as [st1 r] eqn:E.
  assert (is_Some r) as [ch ->].
  { vm_compute in E. injection E as _ <-. by eexists. }
  exact (proj2 (loadBSBChapter_caches ascii_upper sample_fetch offline
                  empty_state st1 (str "gen") (Int 1) (Some ch) E)
               ch eq_refl).
Defined.

Lemma loadBSBChapter_consistent_witness :
  cache_ok ascii_upper
    (Store.loadBSBChapter ascii_upper sample_fetch empty_state (str "gen")
                          (Int 1)).1.
Proof.
  refine (proj1 (loadBSBChapter_consistent ascii_upper sample_fetch
                   empty_state _ (str "gen") (Int 1) _ _ _)).
  - intros k ch Hk. vm_compute in Hk. discriminate Hk.
  - apply surjective_pairing.
Defined.

Lemma loadBSBChapter_fresh_witness :
  ∃ ch, (Store.loadBSBChapter ascii_upper sample_fetch empty_state
           (str "gen") (Int 1)).2 = Some ch
    ∧ StronglySorted (λ x y, num_le (Store.v x) (Store.v y))
                     (Store.verses ch)
    ∧ (λ x, (Store.v x, Store.w x)) <$> Store.verses ch
      ≡ₚ (λ kw : list N * list BSBWord, (parseInt (Some kw.1), kw.2))
           <$> [ (str "2", [ (str "Now", None) ]); (str "1", sample_w) ].
Proof.
  apply (loadBSBChapter_fresh ascii_upper sample_fetch empty_state
           (str "gen") (str "GEN") (Int 1)
           (Store.mkResponse true 200 None (Some sample_display) None)
           sample_display).
  - by vm_compute.
  - by vm_compute.
  - by vm_compute.
  - reflexivity.
  - reflexivity.
  - reflexivity.
  - apply (bool_decide_unpack _). by vm_compute.
  - repeat (apply Forall_cons_2; [by vm_compute|]).
    apply Forall_nil_2.
Defined.

Lemma loadChapterIndex_lines_witness :
  ∃ idx,
    (Store.loadChapterIndex ascii_upper line_entry sample_index_fetch
       empty_state (str "gen") (Int 1)).2 = Some idx
    ∧ (∀ i, idx !! S i = [ str "A"; str "B" ] !! i)
    ∧ idx !! 0%nat = None
    ∧ is_Some (idx !! 1%nat).
Proof.
  refine (proj1 (loadChapterIndex_lines ascii_upper line_entry
                   sample_index_fetch empty_state (str "gen") (str "GEN")
                   (Int 1)
                   (Store.mkResponse true 200
                      (Some (str "A" ++ [10] ++ str "B" ++ [10])) None None)
                   (str "A" ++ [10] ++ str "B" ++ [10]) _ _ _ _ _)
                [ str "A"; str "B" ] _).
  all: by vm_compute.
Defined.

Lemma loadEnrichedBSBChapter_parts_witness :
  match (Store.loadEnrichedBSBChapter ascii_upper no_heading line_entry
           sample_fetch empty_state (Int 1) (Int 1)).2 with
  | Some e => Store.indexEntries e = ∅ ∧ Store.enriched_headings e = []
  | None => False
  end.
Proof.
  pose proof (loadEnrichedBSBChapter_parts ascii_upper no_heading line_entry
                sample_fetch empty_state (Int 1) (Int 1)) as [_ H].
  destruct (Store.loadEnrichedBSBChapter ascii_upper no_heading line_entry
              sample_fetch empty_state (Int 1) (Int 1)).2 as [e|] eqn:E.
  - destruct (H e eq_refl) as (code & Hcode & _ & Hh & _ & Hi).
    vm_compute in Hcode. injection Hcode as <-.
    rewrite Hi, Hh. split; by vm_compute.
  - vm_compute in E. discriminate E.
Defined.

Lemma searchConcordance_loads_once_witness :
  Store.searchConcordance ascii_upper offline
    (Store.searchConcordance ascii_upper sample_index_fetch
       (empty_state : Store.State (list N)) (str "h0001")).1
    (str "H0001")
  = ((Store.searchConcordance ascii_upper sample_index_fetch
        (empty_state : Store.State (list N)) (str "h0001")).1,
     DataApi.searchConcordance ascii_upper (Some sample_concordance)
                               (str "H0001")).
Proof.
  refine (proj2 (proj2 (searchConcordance_loads_once ascii_upper
                          sample_index_fetch empty_state (str "h0001"))
                       sample_concordance offline (str "H0001") _)).
  by vm_compute.
Defined.

Lemma skip_marker_is_punctuation_or_filler_witness :
  isPunctuation (str " . . . ") = true ∨ trim (str " . . . ") = str "vvv".
Proof.
  refine (proj1 (skip_marker_is_punctuation_or_filler (str " . . . ")
                   (Some (str "H0853"))) _).
  by vm_compute.
Defined.

(** ** Parallel passage references *)

Lemma split_on_no_sep (sep : N) (s : list N) :
  sep ∉ s → split_on sep s = [s].
Proof.
  induction s as [|c s IH]; [done|]. intros [Hc Hs]%not_elem_of_cons.
  simpl. rewrite (proj2 (N.eqb_neq c sep)) by done. by rewrite IH.
Qed.

Lemma split_on_app_sep (sep : N) (a b : list N) :
  sep ∉ a → split_on sep (a ++ sep :: b) = a :: split_on sep b.
Proof.
  induction a as [|c a IH]; simpl.
  - intros _. by rewrite N.eqb_refl.
  - intros [Hc Ha]%not_elem_of_cons.
    rewrite (proj2 (N.eqb_neq c sep)) by done. by rewrite IH.
Qed.

Lemma getBookCode_canonical (n : number) (c : list N) :
  getBookCode n = Some c → c ∈ canonical_codes.
Proof.
  unfold getBookCode, index_by_number. intros Hc.
  destruct n as [|z]; [discriminate Hc|].
  destruct (0 <=? z)%Z; [|discriminate Hc].
  destruct (assoc_get (Z.to_N z) BOOK_CODES) as [[|c0 t0]|] eqn:Ea;
    try discriminate Hc.
  injection Hc as <-. apply assoc_get_elem_of in Ea.
  pose proof BOOK_CODES_inverse as Hall. rewrite Forall_forall in Hall.
  exact (proj2 (proj2 (Hall _ Ea))).
Qed.

Lemma bookAbbrev_find_canonical :
  Forall (λ kc : N * list N,
            snd <$> List.find
                      (λ '(num, _),
                         bool_decide (getBookCode (parseInt (Some num))
                                      = Some kc.2))
                      (entries bookAbbrev)
            = assoc_get kc.1 bookAbbrev
            ∧ 46 ∉ kc.2)
         BOOK_CODES.
Proof. apply (bool_decide_unpack _). by vm_compute. Qed.

(** X20. A parallel reference [CODE.chapter.verse] is shown as the
    abbreviation of the book, a blank, the chapter, a colon and the verse.
    The abbreviation is that of the book number of the code when the code
    is a canonical one written in capitals; any other code, an alias
    included, is shown as it is. A reference that does not have exactly
    three parts is shown unchanged. *)
Theorem formatParallelRef_spec (code chapter verse : list N) :
  46 ∉ chapter → 46 ∉ verse →
  (∀ n, (n, code) ∈ BOOK_CODES →
        ∃ abbr, assoc_get n bookAbbrev = Some abbr
                ∧ formatParallelRef
                    (code ++ str "." ++ chapter ++ str "." ++ verse)
                  = abbr ++ str " " ++ chapter ++ str ":" ++ verse)
  ∧ (code ∉ canonical_codes → 46 ∉ code →
     formatParallelRef (code ++ str "." ++ chapter ++ str "." ++ verse)
     = code ++ str " " ++ chapter ++ str ":" ++ verse)
  ∧ (∀ ref, length (split_on 46 ref) ≠ 3%nat → formatParallelRef ref = ref).
Proof.
  intros Hch Hv.
  assert (∀ c, 46 ∉ c →
               split_on 46 (c ++ str "." ++ chapter ++ str "." ++ verse)
               = [c; chapter; verse]) as Hsplit.
  { intros c Hc. change (str ".") with [46]. cbn [app].
    rewrite (split_on_app_sep 46 c) by done.
    rewrite (split_on_app_sep 46 chapter) by done.
    by rewrite split_on_no_sep. }
  split; [|split].
  - intros n Hin.
    pose proof bookAbbrev_find_canonical as Hall.
    rewrite Forall_forall in Hall. destruct (Hall _ Hin) as [Hfind Hdot].
    cbn [fst snd] in Hfind, Hdot.
    unfold formatParallelRef. rewrite (Hsplit code Hdot).
    destruct (List.find _ (entries bookAbbrev)) as [[num a]|] eqn:Ef.
    + exists a. split; [by rewrite <- Hfind|reflexivity].
    + exfalso.
      assert (Forall (λ kc : N * list N, is_Some (assoc_get kc.1 bookAbbrev))
                     BOOK_CODES) as Hsome
        by (apply (bool_decide_unpack _); by vm_compute).
      rewrite Forall_forall in Hsome. destruct (Hsome _ Hin) as [a Ha].
      cbn [fst] in Ha. rewrite Ha in Hfind. discriminate Hfind.
  - intros Hcode Hdot. unfold formatParallelRef. rewrite (Hsplit code Hdot).
    destruct (List.find _ (entries bookAbbrev)) as [[num a]|] eqn:Ef;
      [|reflexivity].
    apply find_some in Ef as [_ Ef]. apply bool_decide_eq_true in Ef.
    apply getBookCode_canonical in Ef. by destruct Hcode.
  - intros ref Hlen. unfold formatParallelRef.
    destruct (split_on 46 ref) as [|a [|b [|c [|d rest]]]]; try reflexivity.
    by destruct Hlen.
Qed.

Lemma formatParallelRef_spec_witness :
  ∃ abbr, assoc_get 1 bookAbbrev = Some abbr
          ∧ formatParallelRef (str "GEN" ++ str "." ++ str "5" ++ str "."
                               ++ str "2")
            = abbr ++ str " " ++ str "5" ++ str ":" ++ str "2".
Proof.
  refine (proj1 (formatParallelRef_spec (str "GEN") (str "5") (str "2") _ _)
                1 _).
  - intros H. by apply (bool_decide_pack _) in H.
  - intros H. by apply (bool_decide_pack _) in H.
  - left.
Defined.
